(** * Error monitor: a shallow embedding of the browser monitor script and
      of the injector, with the properties of their specification.

    The monitor script is JavaScript running on a single-threaded event
    loop.  The embedding follows the script function by function:

    - [JS]: the part of the JavaScript value language the script relies on
      (typeof, String, JSON.stringify, parseInt, Array.prototype.join), with
      exceptions as an explicit result;
    - [Monitor]: the script itself, as computations in a state-and-exception
      monad over the window, the closure variables of one monitor instance
      and the messages posted to the parent;
    - [Injector]: the setup script, over a small file system.

    Strings are sequences of code units; the embedding keeps the code units
    that fit one byte, so a JavaScript string is a [string]. *)

From Stdlib Require Import ZArith Lia Ascii String.
From stdpp Require Import base option list strings pretty gmap.
From Equations Require Import Equations.

Local Open Scope string_scope.
Local Open Scope Z_scope.

(** ** Results of evaluation: a value or a thrown exception *)

Inductive outcome (E A : Type) : Type :=
| Ok (a : A)
| Throw (e : E).
Arguments Ok {E A} a.
Arguments Throw {E A} e.

Definition obind {E A B} (m : outcome E A) (k : A -> outcome E B) : outcome E B :=
  match m with
  | Ok a => k a
  | Throw e => Throw e
  end.

(** [try { m } catch { h }] *)
Definition ocatch {E A} (m : outcome E A) (h : E -> outcome E A) : outcome E A :=
  match m with
  | Ok a => Ok a
  | Throw e => h e
  end.

Declare Scope outcome_scope.
Delimit Scope outcome_scope with outcome.
Notation "x <- m ;; k" := (obind m (fun x => k))
  (at level 100, m at next level, right associativity) : outcome_scope.
Notation "'let*' p ':=' m 'in' k" := (obind m (fun p => k))
  (at level 100, p pattern, m at next level, right associativity) : outcome_scope.

(** [xs.map(f)] where [f] may throw: the first exception ends the map. *)
Fixpoint omap {E A B} (f : A -> outcome E B) (xs : list A) : outcome E (list B) :=
  match xs with
  | [] => Ok []
  | x :: xs' =>
      (y <- f x ;; ys <- omap f xs' ;; Ok (y :: ys))%outcome
  end.

Module JS.

(** *** Values

    Primitive values are modelled exactly.  A number is an integer, NaN, an
    infinity, or a finite non-integral number carried with its
    [Number::toString] rendering.  An object is described by what the script
    observes of it: whether it is callable (typeof), its [message] property,
    and the results of [String(o)] and of [JSON.stringify(o)], each of which
    may throw. *)

Inductive number : Type :=
| NaN
| Infinity (negative : bool)
| Int (z : Z)
| Frac (repr : string).

#[warnings="-register-all"]
Inductive value : Type :=
| VUndefined
| VNull
| VBool (b : bool)
| VNum (n : number)
| VStr (s : string)
| VBigInt (z : Z)
| VSymbol (description : string)
| VObj (callable : bool) (message : value)
       (toStr : outcome value string)
       (json : outcome value (option string)).

Abbreviation result := (outcome value).

(** A [TypeError] raised by the host, as the script can observe it. *)
Definition TypeError (msg : string) : value :=
  VObj false (VStr msg) (Ok ("TypeError: " +:+ msg)) (Ok (Some "{}")).

Definition RangeError (msg : string) : value :=
  VObj false (VStr msg) (Ok ("RangeError: " +:+ msg)) (Ok (Some "{}")).

Inductive jstype : Type :=
| TUndefined | TObject | TBoolean | TNumber | TString | TBigInt | TSymbol | TFunction.

Global Instance jstype_eq_dec : EqDecision jstype.
Proof. solve_decision. Defined.

Definition typeof (v : value) : jstype :=
  match v with
  | VUndefined => TUndefined
  | VNull => TObject
  | VBool _ => TBoolean
  | VNum _ => TNumber
  | VStr _ => TString
  | VBigInt _ => TBigInt
  | VSymbol _ => TSymbol
  | VObj true _ _ _ => TFunction
  | VObj false _ _ _ => TObject
  end.

(** [v.message], and [v?.message] on null and undefined. *)
Definition get_message (v : value) : value :=
  match v with
  | VObj _ m _ _ => m
  | _ => VUndefined
  end.

Definition truthy (v : value) : bool :=
  match v with
  | VUndefined | VNull => false
  | VBool b => b
  | VNum NaN => false
  | VNum (Int z) => negb (z =? 0)
  | VNum _ => true
  | VStr s => negb (String.eqb s "")
  | VBigInt z => negb (z =? 0)
  | VSymbol _ => true
  | VObj _ _ _ _ => true
  end.

Definition is_nullish (v : value) : bool :=
  match v with
  | VUndefined | VNull => true
  | _ => false
  end.

Section Host.

(** Rendering of integers outside the safe range involves rounding to a
    binary64 number, and [parseFloat] produces one: both are left to the
    host. *)
Variable Number_toString_large : Z -> string.
Variable parseFloat_toString : string -> string.

Definition MAX_SAFE_INTEGER : Z := 2 ^ 53 - 1.

Definition Number_toString (n : number) : string :=
  match n with
  | NaN => "NaN"
  | Infinity false => "Infinity"
  | Infinity true => "-Infinity"
  | Int z => if Z.abs z <=? MAX_SAFE_INTEGER then pretty z
             else Number_toString_large z
  | Frac r => r
  end.

(** The abstract operation ToString, used by implicit conversions. *)
Definition ToString (v : value) : result string :=
  match v with
  | VUndefined => Ok "undefined"
  | VNull => Ok "null"
  | VBool true => Ok "true"
  | VBool false => Ok "false"
  | VNum n => Ok (Number_toString n)
  | VStr s => Ok s
  | VBigInt z => Ok (pretty z)
  | VSymbol _ => Throw (TypeError "Cannot convert a Symbol value to a string")
  | VObj _ _ toStr _ => toStr
  end.

(** [String(v)]: ToString, except that a symbol is described. *)
Definition String_ (v : value) : result string :=
  match v with
  | VSymbol d => Ok ("Symbol(" +:+ d +:+ ")")
  | _ => ToString v
  end.

(** *** JSON.stringify *)

Definition dquote : ascii := ascii_of_N 34.

Definition hex_digit (n : N) : ascii :=
  match n with
  | 0 => "0" | 1 => "1" | 2 => "2" | 3 => "3" | 4 => "4" | 5 => "5" | 6 => "6"
  | 7 => "7" | 8 => "8" | 9 => "9" | 10 => "a" | 11 => "b" | 12 => "c"
  | 13 => "d" | 14 => "e" | _ => "f"
  end%N%char.

Definition json_escape (c : ascii) : string :=
  let n := N_of_ascii c in
  if (n =? 34)%N then String "\" (String dquote "")
  else if (n =? 92)%N then "\\"
  else if (n =? 8)%N then "\b"
  else if (n =? 9)%N then "\t"
  else if (n =? 10)%N then "\n"
  else if (n =? 12)%N then "\f"
  else if (n =? 13)%N then "\r"
  else if (n <? 32)%N then
    "\u00" +:+ String (hex_digit (n / 16)) (String (hex_digit (n mod 16)) "")
  else String c "".

Fixpoint json_escape_all (s : string) : string :=
  match s with
  | "" => ""
  | String c s' => json_escape c +:+ json_escape_all s'
  end.

Definition json_quote (s : string) : string :=
  String dquote (json_escape_all s) +:+ String dquote "".

Definition is_finite (n : number) : bool :=
  match n with
  | NaN | Infinity _ => false
  | _ => true
  end.

(** [JSON.stringify(v)]; [None] is the result [undefined]. *)
Definition JSON_stringify (v : value) : result (option string) :=
  match v with
  | VUndefined => Ok None
  | VNull => Ok (Some "null")
  | VBool true => Ok (Some "true")
  | VBool false => Ok (Some "false")
  | VNum n => Ok (Some (if is_finite n then Number_toString n else "null"))
  | VStr s => Ok (Some (json_quote s))
  | VBigInt _ => Throw (TypeError "Do not know how to serialize a BigInt")
  | VSymbol _ => Ok None
  | VObj _ _ _ json => json
  end.

(** A string or [undefined], as a value. *)
Definition of_option_string (o : option string) : value :=
  match o with
  | Some s => VStr s
  | None => VUndefined
  end.

Fixpoint join (sep : string) (xs : list string) : string :=
  match xs with
  | [] => ""
  | [x] => x
  | x :: xs' => x +:+ sep +:+ join sep xs'
  end.

(** [JSON.stringify] of an array whose elements are strings or
    [undefined]: an [undefined] element is written [null]. *)
Definition JSON_stringify_array (xs : list (option string)) : string :=
  "[" +:+ join "," (map (fun o => match o with
                                  | Some s => json_quote s
                                  | None => "null"
                                  end) xs) +:+ "]".

(** [xs.join(sep)] on an array of values: [undefined] and [null] give the
    empty string, the others are converted with ToString. *)
Definition Array_join (sep : string) (xs : list value) : result string :=
  (ss <- omap (fun v => if is_nullish v then Ok "" else ToString v) xs ;;
   Ok (join sep ss))%outcome.

(** *** parseInt

    [parseInt(v)] with no radix: the argument is converted with ToString,
    leading white space and a sign are skipped, a [0x] prefix selects
    radix 16, and the longest prefix of digits is read. *)

Definition is_white_space (c : ascii) : bool :=
  let n := N_of_ascii c in
  ((9 <=? n) && (n <=? 13) || (n =? 32) || (n =? 160))%N.

Fixpoint trim_start (s : string) : string :=
  match s with
  | String c s' => if is_white_space c then trim_start s' else s
  | "" => ""
  end.

Definition digit_value (c : ascii) : option Z :=
  let n := Z.of_N (N_of_ascii c) in
  if (48 <=? n) && (n <=? 57) then Some (n - 48)
  else if (97 <=? n) && (n <=? 122) then Some (n - 87)
  else if (65 <=? n) && (n <=? 90) then Some (n - 55)
  else None.

(** The digits of radix [R] at the start of [s], accumulated on [acc];
    [seen] tells whether a digit was read. *)
Fixpoint read_digits (R : Z) (s : string) (acc : Z) (seen : bool) : option Z :=
  match s with
  | String c s' =>
      match digit_value c with
      | Some d => if d <? R then read_digits R s' (acc * R + d) true
                  else if seen then Some acc else None
      | None => if seen then Some acc else None
      end
  | "" => if seen then Some acc else None
  end.

Definition parseInt_string (input : string) : number :=
  let s := trim_start input in
  let '(sign, s) :=
    match s with
    | String "-" s' => (-1, s')
    | String "+" s' => (1, s')
    | _ => (1, s)
    end in
  let '(R, s) :=
    match s with
    | String "0" (String "x" s') => (16, s')
    | String "0" (String "X" s') => (16, s')
    | _ => (10, s)
    end in
  match read_digits R s 0 false with
  | Some n => Int (sign * n)
  | None => NaN
  end.

Definition parseInt (v : value) : result number :=
  (s <- ToString v ;; Ok (parseInt_string s))%outcome.

(** *** The message formatter of the script *)

(** The character class [[sidfoOc]] of the placeholder pattern. *)
Definition is_placeholder (c : ascii) : bool :=
  bool_decide (c ∈ ["s"; "i"; "d"; "f"; "o"; "O"; "c"]%char).

(** The replacement callback, on the placeholder letter and the argument
    it consumes.  A callback result [undefined] is inserted as the string
    "undefined". *)
Definition substitute (type : ascii) (arg : value) : result string :=
  (if bool_decide (type = "s"%char) then String_ arg
   else if bool_decide (type = "i"%char) || bool_decide (type = "d"%char) then
     n <- parseInt arg ;; Ok (Number_toString n)
   else if bool_decide (type = "f"%char) then
     s <- ToString arg ;; Ok (parseFloat_toString s)
   else if bool_decide (type = "o"%char) || bool_decide (type = "O"%char) then
     ocatch (o <- JSON_stringify arg ;; Ok (default "undefined" o))
            (fun _ => String_ arg)
   else Ok (String "%" (String type "")))%outcome.

(** [template.replace(/%([sidfoOc])/g, callback)]: the matches are found
    from left to right, and each one consumes the argument at index [i].
    The result comes with the final value of [i]. *)
Fixpoint replace_placeholders (template : string) (args : list value) (i : nat)
  : result (string * nat) :=
  match template with
  | "" => Ok ("", i)
  | String c rest =>
      match rest with
      | String type rest' =>
          if bool_decide (c = "%"%char) && is_placeholder type then
            (r <- substitute type (nth i args VUndefined) ;;
             let* (out, j) := replace_placeholders rest' args (S i) in
             Ok (r +:+ out, j))%outcome
          else
            (let* (out, j) := replace_placeholders rest args i in
             Ok (String c out, j))%outcome
      | "" => Ok (String c "", i)
      end
  end.

(** The callback of [args.slice(i).map(...)]. *)
Definition remaining_arg (arg : value) : result value :=
  if bool_decide (typeof arg = TObject) then
    ocatch
      (if is_nullish (get_message arg)
       then (o <- JSON_stringify arg ;; Ok (of_option_string o))%outcome
       else Ok (get_message arg))
      (fun _ => (s <- String_ arg ;; Ok (VStr s))%outcome)
  else (s <- String_ arg ;; Ok (VStr s))%outcome.

Definition formatMessageWithPlaceholders (template : value) (args : list value)
  : result string :=
  match template with
  | VStr t =>
      (let* (formatted, i) := replace_placeholders t args 0%nat in
       remainingArgs <- omap remaining_arg (drop i args) ;;
       if (0 <? length remainingArgs)%nat
       then (joined <- Array_join " " remainingArgs ;;
             Ok (formatted +:+ " " +:+ joined))
       else Ok formatted)%outcome
  | _ =>
      (ss <- omap String_ (template :: args) ;; Ok (join " " ss))%outcome
  end.

(** The fallback of the formatter as its specification words it: every
    argument coerced to a string, in order, with a space between two
    consecutive ones. *)
Fixpoint space_joined_coercion (vs : list value) : result string :=
  match vs with
  | [] => Ok ""
  | v :: vs' =>
      (str <- String_ v ;;
       match vs' with
       | [] => Ok str
       | _ => (others <- space_joined_coercion vs' ;; Ok (str +:+ " " +:+ others))
       end)%outcome
  end.

End Host.

(** *** Notions used in the statements *)

(** A value that is neither an object (or function) nor a symbol. *)
Definition plain (v : value) : bool :=
  match v with
  | VObj _ _ _ _ | VSymbol _ => false
  | _ => true
  end.

(** The character [c] occurs in [s]. *)
Fixpoint mentions (c : ascii) (s : string) : bool :=
  match s with
  | "" => false
  | String a s' => Ascii.eqb a c || mentions c s'
  end.

End JS.

(** ** The monitor script *)

Module Monitor.
Import JS.

(** *** Error events and their envelope *)

(** The two kinds of error event.  [message] is a value: the interceptor
    passes the formatted string, the manual entry point whatever the
    [message] property of its argument holds. *)
Inductive event : Type :=
| DomEvent (dom : string) (timestamp : string)
| ConsoleEvent (method : string) (message : value) (args : string)
               (isServer : bool) (timestamp : string).

(** [{ source: "superengineer", ...data }] *)
Record envelope : Type := Envelope {
  source : string;
  data : event
}.

Definition is_dom (e : event) : bool :=
  match e with DomEvent _ _ => true | ConsoleEvent _ _ _ _ _ => false end.

(** *** The window and one monitor instance *)

(** The functions [console.error] can be bound to. *)
Inductive consoleFn : Type :=
| NativeError     (* the function the host page started with *)
| MonitorError.   (* the interceptor of [setupConsoleInterceptors] *)

Global Instance consoleFn_eq_dec : EqDecision consoleFn.
Proof. solve_decision. Defined.

(** Lines written to the developer console.  The interceptor leaves
    [console.log] and [console.warn] alone; [Error] is a call of the native
    [console.error] with its arguments. *)
Inductive consoleLine : Type :=
| Log (text : string)
| Warn (text : string)
| Error (args : list value).

(** Asynchronous flows that were started and not awaited.  An [async]
    function runs inside the call that starts it up to its first [await];
    what is kept here is the rest of the flow, with the time [started] of
    that call: the time at which [checkDomErrors] read the document. *)
Inductive task : Type :=
| HandleConsoleError (method : string) (message : value) (args : list value)
                     (started : Z)
| CheckDomErrors (started : Z).

(** The window globals [__errorMonitorAPI] and [__initErrorMonitor] only
    give access to the functions below and carry no state; one monitor
    instance is followed. *)
Record state : Type := State {
  (* the window *)
  errorMonitorInitialized : bool;   (* window.__errorMonitorInitialized *)
  console_error : consoleFn;        (* console.error *)
  onerror : bool;                   (* window.onerror is the monitor's handler *)
  onunhandledrejection : bool;      (* window.onunhandledrejection likewise *)
  cleanupErrorMonitor : bool;       (* window.__cleanupErrorMonitor is set *)
  observing : bool;                 (* the mutation observer is connected *)
  (* the closure variables of the monitor instance *)
  isInitialized : bool;
  originalConsole : option consoleFn;   (* originalConsole.error, or null *)
  lastErrorHash : string;
  (* time, in milliseconds *)
  clock : Z;
  (* what the script did *)
  sent : list event;                (* the arguments of sendToWebhook *)
  posted : list envelope;           (* messages posted to the parent *)
  console_out : list consoleLine;
  pending : list task
}.

Definition set_console_error f s :=
  State (errorMonitorInitialized s) f (onerror s) (onunhandledrejection s)
    (cleanupErrorMonitor s) (observing s) (isInitialized s) (originalConsole s)
    (lastErrorHash s) (clock s) (sent s) (posted s) (console_out s) (pending s).
Definition set_handlers b s :=
  State (errorMonitorInitialized s) (console_error s) b b
    (cleanupErrorMonitor s) (observing s) (isInitialized s) (originalConsole s)
    (lastErrorHash s) (clock s) (sent s) (posted s) (console_out s) (pending s).
Definition set_cleanupErrorMonitor b s :=
  State (errorMonitorInitialized s) (console_error s) (onerror s)
    (onunhandledrejection s) b (observing s) (isInitialized s) (originalConsole s)
    (lastErrorHash s) (clock s) (sent s) (posted s) (console_out s) (pending s).
Definition set_observing b s :=
  State (errorMonitorInitialized s) (console_error s) (onerror s)
    (onunhandledrejection s) (cleanupErrorMonitor s) b (isInitialized s)
    (originalConsole s) (lastErrorHash s) (clock s) (sent s) (posted s)
    (console_out s) (pending s).
Definition set_errorMonitorInitialized b s :=
  State b (console_error s) (onerror s) (onunhandledrejection s)
    (cleanupErrorMonitor s) (observing s) (isInitialized s) (originalConsole s)
    (lastErrorHash s) (clock s) (sent s) (posted s) (console_out s) (pending s).
Definition set_isInitialized b s :=
  State (errorMonitorInitialized s) (console_error s) (onerror s)
    (onunhandledrejection s) (cleanupErrorMonitor s) (observing s) b
    (originalConsole s) (lastErrorHash s) (clock s) (sent s) (posted s)
    (console_out s) (pending s).
Definition set_originalConsole o s :=
  State (errorMonitorInitialized s) (console_error s) (onerror s)
    (onunhandledrejection s) (cleanupErrorMonitor s) (observing s)
    (isInitialized s) o (lastErrorHash s) (clock s) (sent s) (posted s)
    (console_out s) (pending s).
Definition set_lastErrorHash h s :=
  State (errorMonitorInitialized s) (console_error s) (onerror s)
    (onunhandledrejection s) (cleanupErrorMonitor s) (observing s)
    (isInitialized s) (originalConsole s) h (clock s) (sent s) (posted s)
    (console_out s) (pending s).
Definition set_clock t s :=
  State (errorMonitorInitialized s) (console_error s) (onerror s)
    (onunhandledrejection s) (cleanupErrorMonitor s) (observing s)
    (isInitialized s) (originalConsole s) (lastErrorHash s) t (sent s)
    (posted s) (console_out s) (pending s).
Definition add_sent e s :=
  State (errorMonitorInitialized s) (console_error s) (onerror s)
    (onunhandledrejection s) (cleanupErrorMonitor s) (observing s)
    (isInitialized s) (originalConsole s) (lastErrorHash s) (clock s)
    (sent s ++ [e]) (posted s) (console_out s) (pending s).
Definition add_posted m s :=
  State (errorMonitorInitialized s) (console_error s) (onerror s)
    (onunhandledrejection s) (cleanupErrorMonitor s) (observing s)
    (isInitialized s) (originalConsole s) (lastErrorHash s) (clock s)
    (sent s) (posted s ++ [m]) (console_out s) (pending s).
Definition add_console_out l s :=
  State (errorMonitorInitialized s) (console_error s) (onerror s)
    (onunhandledrejection s) (cleanupErrorMonitor s) (observing s)
    (isInitialized s) (originalConsole s) (lastErrorHash s) (clock s)
    (sent s) (posted s) (console_out s ++ [l]) (pending s).
Definition add_pending t s :=
  State (errorMonitorInitialized s) (console_error s) (onerror s)
    (onunhandledrejection s) (cleanupErrorMonitor s) (observing s)
    (isInitialized s) (originalConsole s) (lastErrorHash s) (clock s)
    (sent s) (posted s) (console_out s) (pending s ++ [t]).
Definition set_pending ts s :=
  State (errorMonitorInitialized s) (console_error s) (onerror s)
    (onunhandledrejection s) (cleanupErrorMonitor s) (observing s)
    (isInitialized s) (originalConsole s) (lastErrorHash s) (clock s)
    (sent s) (posted s) (console_out s) ts.

(** *** Computations: state and exceptions *)

Definition M (A : Type) : Type := state -> result A * state.

Definition ret {A} (a : A) : M A := fun s => (Ok a, s).
Definition throw {A} (e : value) : M A := fun s => (Throw e, s).
Definition bind {A B} (m : M A) (k : A -> M B) : M B :=
  fun s => match m s with
           | (Ok a, s') => k a s'
           | (Throw e, s') => (Throw e, s')
           end.
(** [try { m } catch (e) { h e }] *)
Definition try_catch {A} (m : M A) (h : value -> M A) : M A :=
  fun s => match m s with
           | (Ok a, s') => (Ok a, s')
           | (Throw e, s') => h e s'
           end.
Definition lift {A} (r : result A) : M A := fun s => (r, s).
Definition gets {A} (f : state -> A) : M A := fun s => (Ok (f s), s).
Definition modify (f : state -> state) : M unit := fun s => (Ok tt, f s).

Declare Scope monitor_scope.
Delimit Scope monitor_scope with M.
Notation "x <- m ;; k" := (bind m (fun x => k))
  (at level 100, m at next level, right associativity) : monitor_scope.
Notation "m ;;; k" := (bind m (fun _ => k))
  (at level 100, right associativity) : monitor_scope.

Definition console_log (text : string) : M unit := modify (add_console_out (Log text)).
Definition console_warn (text : string) : M unit := modify (add_console_out (Warn text)).

(** *** The host

    DOM elements and their serializer, the clock, the parent window, and
    the document, which changes with time on its own. *)

(** An open shadow root, as the script sees it: the result of
    [shadow.querySelector('div')] at each time. *)
Definition ShadowRoot (Element : Type) : Type := Z -> option Element.

(** A [nextjs-portal] element: its [shadowRoot] at each time. *)
Record portal (Element : Type) : Type := Portal {
  shadowRoot : Z -> option (ShadowRoot Element)
}.
Arguments Portal {Element} _.
Arguments shadowRoot {Element} _ _.

Record host (Element : Type) : Type := Host {
  (* rendering of integers beyond the safe range, and parseFloat(s).toString() *)
  Number_toString_large : Z -> string;
  parseFloat_toString : string -> string;
  (* new XMLSerializer().serializeToString(el) *)
  serializeToString : Element -> string;
  (* new Date().toISOString() at a given time *)
  toISOString : Z -> string;
  (* window.parent.postMessage(msg, "*") returns, or throws an exception *)
  postMessage_throws : envelope -> option value;
  (* window.parent && window !== window.parent *)
  in_frame : bool;
  (* document.querySelectorAll('nextjs-portal') at each time *)
  document : Z -> list (portal Element);
  (* how much later than asked for a timer set at a given time fires; a
     negative value counts as none *)
  timer_lag : Z -> Z
}.
Arguments Host {Element}.
Arguments Number_toString_large {Element} _ _.
Arguments parseFloat_toString {Element} _ _.
Arguments serializeToString {Element} _ _.
Arguments toISOString {Element} _ _.
Arguments postMessage_throws {Element} _ _.
Arguments in_frame {Element} _.
Arguments document {Element} _ _.
Arguments timer_lag {Element} _ _.

Section Script.

Context {Element : Type} (h : host Element).

(** *** sendToWebhook *)

Definition call_native_error (args : list value) : M unit :=
  modify (add_console_out (Error args)).

Definition errorHash (formatted : string) : string :=
  "console-error-" +:+ substring 0 100 formatted.

(** *** The start of a flow

    What the two [async] functions do inside the call, before their first
    [await]: [checkDomErrors] writes its line and reads the document (the
    list of [querySelectorAll] is not live), [handleConsoleError] writes
    its line and, for the method "error", calls [checkDomErrors].  The
    result is the time of that reading; the shadow roots read and the first
    query made before the [await] are read and made at that time too. *)
Definition checkDomErrors_enter : M Z :=
  (console_log "Checking for Next.js errors in DOM" ;;;
   gets clock)%M.

Definition handleConsoleError_enter (method : string) : M (option Z) :=
  (console_log ("Handling " +:+ method +:+ " message:") ;;;
   if bool_decide (method <> "error") then ret None
   else
     started <- checkDomErrors_enter ;;
     ret (Some started))%M.

(** A call whose promise is not awaited: the rest of the flow is left for
    later. *)
Definition start_checkDomErrors : M unit :=
  (started <- checkDomErrors_enter ;;
   modify (add_pending (CheckDomErrors started)))%M.

Definition start_handleConsoleError (method : string) (message : value)
    (args : list value) : M unit :=
  (entered <- handleConsoleError_enter method ;;
   match entered with
   | Some started => modify (add_pending (HandleConsoleError method message args started))
   | None => ret tt
   end)%M.

(** The function assigned to [console.error] by [setupConsoleInterceptors]
    ([formatMessageWithPlaceholders] is a function, so the first branch of
    the conditional is taken).  [handleConsoleError] is started and not
    awaited.  Should [originalConsole.error] be the interceptor itself, the
    last call would recurse until the stack is exhausted. *)
Definition interceptor (args : list value) : M unit :=
  (try_catch
     (formatted <- lift (formatMessageWithPlaceholders (Number_toString_large h)
                           (parseFloat_toString h) (nth 0 args VUndefined) (drop 1 args)) ;;
      last <- gets lastErrorHash ;;
      if bool_decide (errorHash formatted <> last) then
        modify (set_lastErrorHash (errorHash formatted)) ;;;
        start_handleConsoleError "error" (VStr formatted) args
      else ret tt)
     (fun formatErr => console_log "Error in console error interceptor:") ;;;
   original <- gets originalConsole ;;
   match original with
   | None => throw (TypeError "Cannot read properties of null (reading 'error')")
   | Some NativeError => call_native_error args
   | Some MonitorError => throw (RangeError "Maximum call stack size exceeded")
   end)%M.

(** A call [console.error(...args)], through the current binding. *)
Definition call_console_error (args : list value) : M unit :=
  fun s => match console_error s with
           | NativeError => call_native_error args s
           | MonitorError => interceptor args s
           end.

Definition sendToWebhook (data : event) : M unit :=
  (modify (add_sent data) ;;;
   console_log "Send to webhook" ;;;
   try_catch
     (if in_frame h then
        let msg := Envelope "superengineer" data in
        match postMessage_throws h msg with
        | Some err => throw err
        | None => modify (add_posted msg)
        end
      else console_warn "Parent window not available for postMessage.")
     (fun err => call_console_error [VStr "Failed to send message to parent:"; err]))%M.

(** *** waitForHeaderElement *)

(** The time at which a timer set at time [t] for [delay] milliseconds
    fires: not before the delay has passed ([setTimeout] with a negative
    delay waits for nothing), and as much later as the host makes it. *)
Definition fires (t delay : Z) : Z :=
  t + Z.max 0 delay + Z.max 0 (timer_lag h t).

(** [check(count)] started at time [t]: the resolved value, and the times
    at which the shadow root was queried. *)
Equations? check (shadow : ShadowRoot Element) (delay : Z) (count : Z) (t : Z)
  : option Element * list Z by wf (Z.to_nat count) lt :=
  check shadow delay count t with shadow t := {
    | Some el => (Some el, [t])
    | None with decide (count <= 0) := {
        | left _ => (None, [t])
        | right _ =>
            let later := check shadow delay (count - 1) (fires t delay) in
            (later.1, t :: later.2) } }.
Proof. lia. Qed.

Definition default_retries : Z := 10.
Definition default_delay : Z := 200.

Definition waitForHeaderElement (shadow : ShadowRoot Element) (retries delay : Z)
  : M (option Element) :=
  fun s => let r := check shadow delay retries (clock s) in
           (Ok r.1, set_clock (List.last r.2 (clock s)) s).

(** *** checkDomErrors *)

(** The loop over the portals, with the local [foundError].  Inside the
    [try], only the report can throw, and it is made after [foundError] is
    set. *)
Fixpoint scan (portals : list (portal Element)) (foundError : bool) : M bool :=
  match portals with
  | [] => ret foundError
  | p :: rest =>
      (now <- gets clock ;;
       match shadowRoot p now with
       | None => scan rest foundError
       | Some shadow =>
           header <- waitForHeaderElement shadow default_retries default_delay ;;
           match header with
           | Some el =>
               let htmlString := serializeToString h el in
               try_catch
                 (console_log "Found potential Next.js error element" ;;;
                  now <- gets clock ;;
                  sendToWebhook (DomEvent htmlString (toISOString h now)) ;;;
                  console_log "DOM error sent to webhook" ;;;
                  ret true)
                 (fun error =>
                    call_console_error [VStr "Error checking DOM for errors:"; error] ;;;
                    scan rest true)
           | None => scan rest foundError
           end
       end)%M
  end.

(** The flow from the reading of the document on. *)
Definition checkDomErrors_from (started : Z) : M bool :=
  scan (document h started) false.

(** The whole flow, from the call to the value its promise resolves with,
    when nothing else runs in between. *)
Definition checkDomErrors : M bool :=
  (started <- checkDomErrors_enter ;;
   checkDomErrors_from started)%M.

(** *** handleConsoleError *)

Definition isServer : bool := false.

(** The callback of [args.map(...)] in the console event. *)
Definition serialize_arg (arg : value) : result (option string) :=
  ocatch
    (if bool_decide (typeof arg = TObject) then JSON_stringify (Number_toString_large h) arg
     else (str <- String_ (Number_toString_large h) arg ;; Ok (Some str))%outcome)
    (fun e => (str <- String_ (Number_toString_large h) arg ;; Ok (Some str))%outcome).

Definition serialize_args (args : list value) : result string :=
  (xs <- omap serialize_arg args ;; Ok (JSON_stringify_array xs))%outcome.

(** The flow from [await checkDomErrors()] on: the value its promise
    resolves with, or the exception it rejects with. *)
Definition handleConsoleError_from (method : string) (message : value)
    (args : list value) (started : Z) : M value :=
  (domErrorFound <- checkDomErrors_from started ;;
   if negb domErrorFound then
     console_log "No DOM error found, sending console error" ;;;
     serialized <- lift (serialize_args args) ;;
     now <- gets clock ;;
     sendToWebhook (ConsoleEvent method message serialized isServer (toISOString h now)) ;;;
     ret VUndefined
   else
     console_log "DOM error found and sent, skipping console error" ;;;
     ret VUndefined)%M.

(** The whole flow, from the call to the settling of its promise, when
    nothing else runs in between. *)
Definition handleConsoleError (method : string) (message : value) (args : list value)
  : M value :=
  (entered <- handleConsoleError_enter method ;;
   match entered with
   | None => ret VUndefined
   | Some started => handleConsoleError_from method message args started
   end)%M.

(** *** sendErrorManually *)

(** What the manual entry point returns: the value [false], or the promise
    of [handleConsoleError] with what it settles to. *)
Inductive returned : Type :=
| ReturnedFalse
| ReturnedPromise (settled : result value).

(** [error?.message || String(error)]; in a browser [window] is defined,
    so the first test of [sendErrorManually] does not apply. *)
Definition extract_message (error : value) : result value :=
  let m := get_message error in
  if truthy m then Ok m
  else (str <- String_ (Number_toString_large h) error ;; Ok (VStr str))%outcome.

Definition sendErrorManually (error : value) : M returned :=
  fun s =>
    match extract_message error with
    | Ok message =>
        let r := handleConsoleError "error" message [error] s in
        (Ok (ReturnedPromise r.1), r.2)
    | Throw err =>
        (console_log "Failed to manually send error:" ;;; ret ReturnedFalse)%M s
    end.

(** The call alone, as the page makes it without awaiting the promise:
    whether a promise was returned. *)
Definition sendErrorManually_called (error : value) : M bool :=
  match extract_message error with
  | Ok message => (start_handleConsoleError "error" message [error] ;;; ret true)%M
  | Throw err => (console_log "Failed to manually send error:" ;;; ret false)%M
  end.

(** *** Installation *)

Definition setupConsoleInterceptors : M unit :=
  (initialized <- gets isInitialized ;;
   if initialized then ret tt
   else
     console_log "Setting up console interceptors" ;;;
     current <- gets console_error ;;
     modify (set_originalConsole (Some current)) ;;;
     modify (set_console_error MonitorError))%M.

Definition setupErrorHandlers : M unit :=
  (console_log "Setting up error handlers" ;;;
   modify (set_handlers true))%M.

(** [window.onerror], as installed by [setupErrorHandlers]; it returns
    [false]. *)
Definition onerror_handler (msg err : value) : M bool :=
  (console_log "onerror triggered:" ;;;
   str <- lift (String_ (Number_toString_large h) msg) ;;
   call_console_error [VStr ("Uncaught error: " +:+ str); err] ;;;
   ret false)%M.

(** [window.onunhandledrejection], on [event.reason]. *)
Definition onunhandledrejection_handler (reason : value) : M unit :=
  (console_log "onunhandledrejection triggered:" ;;;
   let m := get_message reason in
   str <- lift (String_ (Number_toString_large h) (if truthy m then m else reason)) ;;
   call_console_error [VStr ("Unhandled promise rejection: " +:+ str); reason])%M.

(** What the observer callback reads of a node and of a mutation record. *)
Record node : Type := Node {
  nodeName : string;
  hasShadowRoot : bool;      (* node.shadowRoot is set *)
  containsPortal : bool      (* node.querySelector?.('nextjs-portal') finds one *)
}.

Inductive mutationType : Type := Attributes | ChildList | CharacterData.

#[local] Instance mutationType_eq_dec : EqDecision mutationType.
Proof. solve_decision. Defined.

Record mutation : Type := Mutation {
  addedNodes : list node;
  type : mutationType;
  target : node
}.

Definition lower_ascii (c : ascii) : ascii :=
  let n := N_of_ascii c in
  if ((65 <=? n) && (n <=? 90))%N then ascii_of_N (n + 32) else c.

Fixpoint toLowerCase (s : string) : string :=
  match s with
  | "" => ""
  | String c s' => String (lower_ascii c) (toLowerCase s')
  end.

Definition is_portal_name (name : string) : bool :=
  negb (String.eqb name "") && String.eqb (toLowerCase name) "nextjs-portal".

Definition relevant_node (n : node) : bool :=
  negb (String.eqb (nodeName n) "")
  && (String.eqb (toLowerCase (nodeName n)) "nextjs-portal"
      || hasShadowRoot n || containsPortal n).

Fixpoint shouldCheck (mutations : list mutation) : bool :=
  match mutations with
  | [] => false
  | m :: rest =>
      let added := existsb relevant_node (addedNodes m) in
      let attr := negb added
                  && bool_decide (type m = Attributes)
                  && is_portal_name (nodeName (target m)) in
      if added || attr then true else shouldCheck rest
  end.

(** The callback of the mutation observer; the scan is started and not
    awaited. *)
Definition observer_callback (mutations : list mutation) : M unit :=
  if shouldCheck mutations then
    (console_log "Relevant DOM mutation detected, checking for Next.js errors" ;;;
     start_checkDomErrors)%M
  else ret tt.

Definition setupNextJsErrorObserver : M unit :=
  (console_log "Setting up Next.js error observer" ;;;
   modify (set_observing true))%M.

(** The closure [cleanup] that [initialize] builds; its observer is the
    one that call of [initialize] connected. *)
Definition cleanup : M unit :=
  (console_log "Cleaning up error monitor" ;;;
   original <- gets originalConsole ;;
   match original with
   | Some f => modify (set_console_error f)
   | None => ret tt
   end ;;;
   modify (set_handlers false) ;;;
   modify (set_observing false) ;;;
   modify (set_isInitialized false) ;;;
   modify (set_originalConsole None))%M.

Definition initialize : M unit :=
  (initialized <- gets isInitialized ;;
   if initialized then ret tt
   else
     modify (set_isInitialized true) ;;;
     setupConsoleInterceptors ;;;
     setupErrorHandlers ;;;
     setupNextJsErrorObserver ;;;
     start_checkDomErrors ;;;
     modify (set_cleanupErrorMonitor true))%M.

(** [initEnhancedErrorMonitor(options)]: the closure variables start
    afresh, then [initialize()] runs. *)
Definition initEnhancedErrorMonitor : M unit :=
  (modify (set_isInitialized false) ;;;
   modify (set_originalConsole None) ;;;
   modify (set_lastErrorHash "") ;;;
   console_log "[EnhancedErrorMonitor] Initializing..." ;;;
   initialize)%M.

(** The public API: [sendError] is [sendErrorManually], [checkForErrors] is
    [checkDomErrors], and [cleanup] calls [window.__cleanupErrorMonitor]
    when it is set. *)
Definition api_cleanup : M unit :=
  (registered <- gets cleanupErrorMonitor ;;
   if registered then cleanup else ret tt)%M.

(** The script itself, evaluated once the document is ready. *)
Definition load_script : M unit :=
  (loaded <- gets errorMonitorInitialized ;;
   if loaded then console_log "Error monitor already initialized"
   else
     modify (set_errorMonitorInitialized true) ;;;
     initEnhancedErrorMonitor)%M.

(** *** The event loop *)

(** A flow that was left for later goes on with its own time: the clock is
    the time of the statement that is run, so the flow finds it at the time
    [started] at which it was suspended, and leaves it at the latest time
    that was reached. *)
Definition resume {A} (started : Z) (m : M A) : M A :=
  fun s => let r := m (set_clock started s) in
           (r.1, set_clock (Z.max (clock s) (clock r.2)) r.2).

Definition run_task (t : task) : M unit :=
  match t with
  | HandleConsoleError method message args started =>
      resume started (handleConsoleError_from method message args started ;;; ret tt)%M
  | CheckDomErrors started =>
      resume started (checkDomErrors_from started ;;; ret tt)%M
  end.

(** A page before the script is loaded. *)
Definition initial (now : Z) : state :=
  State false NativeError false false false false false None "" now [] [] [] [].

(** One turn of the event loop: something the page, the browser or the
    passing of time does to the window once the script is loaded.  A call
    that starts a flow runs it up to its first [await]; the rest of the flow
    runs to its end when it is taken from the pending ones. *)
Inductive step : state -> state -> Prop :=
| step_load s :
    step s (load_script s).2
| step_console_error args s :
    step s (call_console_error args s).2
| step_sendError error s :
    cleanupErrorMonitor s = true ->
    step s (sendErrorManually_called error s).2
| step_checkForErrors s :
    cleanupErrorMonitor s = true ->
    step s (start_checkDomErrors s).2
| step_cleanup s :
    step s (api_cleanup s).2
| step_task (t : task) (before after : list task) s :
    pending s = (before ++ t :: after)%list ->
    step s (run_task t (set_pending (before ++ after)%list s)).2
| step_mutation mutations s :
    observing s = true ->
    step s (observer_callback mutations s).2
| step_onerror msg err s :
    onerror s = true ->
    step s (onerror_handler msg err s).2
| step_onunhandledrejection reason s :
    onunhandledrejection s = true ->
    step s (onunhandledrejection_handler reason s).2
| step_time t s :
    clock s <= t ->
    step s (set_clock t s).

Definition reachable (s : state) : Prop :=
  exists now, rtc step (initial now) s.

(** *** Notions used in the statements *)

(** The time of the query that follows [k] timers, from a first query at
    [t]; and the times of [n] queries from [t]. *)
Fixpoint poll_time (t delay : Z) (k : nat) : Z :=
  match k with
  | O => t
  | S k' => poll_time (fires t delay) delay k'
  end.

Definition poll_times (t delay : Z) (n : nat) : list Z :=
  map (poll_time t delay) (seq 0 n).

(** Every timer fires as soon as its delay has passed. *)
Definition on_time : Prop := forall t, timer_lag h t <= 0.

(** The saved console and the binding of [console.error] agree: the saved
    function is the native one, and the interceptor is bound only while a
    function is saved. *)
Definition consistent (s : state) : Prop :=
  match originalConsole s with
  | None => console_error s = NativeError
  | Some f => f = NativeError
  end.

(** What a report does not touch. *)
Definition window_of (s : state) :=
  (errorMonitorInitialized s, console_error s, onerror s, onunhandledrejection s,
   cleanupErrorMonitor s, observing s, isInitialized s, originalConsole s).

(** From [s] to [s'] nothing was installed or removed, and the dedup hash
    and the started flows changed only if the interceptor is bound. *)
Definition quiet (s s' : state) : Prop :=
  window_of s' = window_of s
  /\ (console_error s = NativeError ->
      lastErrorHash s' = lastErrorHash s /\ pending s' = pending s).

(** The messages that reach the parent for one event. *)
Definition delivered (data : event) : list envelope :=
  if in_frame h then
    match postMessage_throws h (Envelope "superengineer" data) with
    | None => [Envelope "superengineer" data]
    | Some _ => []
    end
  else [].

(** The scan of [checkDomErrors] without its effects: the header of the
    first overlay, in document order, that has a shadow root when the scan
    reaches it and whose header resolves during the wait; and the time at
    which the scan ends. *)
Fixpoint locate (portals : list (portal Element)) (t : Z) : option Element * Z :=
  match portals with
  | [] => (None, t)
  | p :: rest =>
      match shadowRoot p t with
      | None => locate rest t
      | Some shadow =>
          let r := check shadow default_delay default_retries t in
          match r.1 with
          | Some el => (Some el, List.last r.2 t)
          | None => locate rest (List.last r.2 t)
          end
      end
  end.

(** The event the scan reports for the header it located, if any. *)
Definition dom_report (portals : list (portal Element)) (t : Z) : list event :=
  match (locate portals t).1 with
  | Some el => [DomEvent (serializeToString h el) (toISOString h (locate portals t).2)]
  | None => []
  end.

(** The same host, with further overlays at the end of the document. *)
Definition with_more_overlays (more : list (portal Element)) : host Element :=
  Host (Number_toString_large h) (parseFloat_toString h) (serializeToString h)
       (toISOString h) (postMessage_throws h) (in_frame h)
       (fun t => (document h t ++ more)%list) (timer_lag h).

(** The interceptor is not installed and the dedup hash was never written. *)
Definition pristine (s : state) : Prop :=
  console_error s = NativeError /\ originalConsole s = None /\ lastErrorHash s = "".

(** A mutation record the observer reacts to: it adds a relevant node, or
    it is an attribute change of an overlay. *)
Definition relevant_mutation (m : mutation) : bool :=
  existsb relevant_node (addedNodes m)
  || (bool_decide (type m = Attributes) && is_portal_name (nodeName (target m))).

(** From [s] to [s'] some events were handed to [sendToWebhook], and the
    parent received what is delivered for them, in the same order. *)
Definition reported (s s' : state) : Prop :=
  exists events,
    sent s' = (sent s ++ events)%list
    /\ posted s' = (posted s ++ flat_map delivered events)%list.

End Script.

(** *** A concrete host, for examples

    Elements are their own markup, times are written in decimal, posting a
    message succeeds, and timers fire on time. *)

Definition markup_host (frame : bool) (doc : Z -> list (portal string)) : host string :=
  Host (fun z => pretty z) (fun str => str) (fun el => el) (fun t => pretty t)
       (fun _ => None) frame doc (fun _ => 0).

(** The same host, where every timer fires [lag] milliseconds late. *)
Definition with_late_timers {Element : Type} (lag : Z) (h : host Element)
  : host Element :=
  Host (Number_toString_large h) (parseFloat_toString h) (serializeToString h)
       (toISOString h) (postMessage_throws h) (in_frame h) (document h)
       (fun _ => lag).

(** A shadow root whose header appears after two seconds. *)
Definition late_shadow : ShadowRoot string :=
  fun t => if 2000 <=? t then Some "<div>late</div>" else None.

Definition no_overlay : Z -> list (portal string) := fun _ => [].

Definition one_overlay : Z -> list (portal string) :=
  fun _ => [Portal (fun _ => Some (fun _ => Some "<div>Unhandled Runtime Error</div>"))].


(** An object with a [message], that neither [JSON.stringify] nor [String]
    can convert: for example one without prototype that refers to itself,
    [o = Object.create(null); o.message = "x"; o.self = o]. *)
Definition unserializable : value :=
  VObj false (VStr "x")
    (Throw (TypeError "Cannot convert object to primitive value"))
    (Throw (TypeError "Converting circular structure to JSON")).

(** The page once the script is loaded and its first scan is over. *)
Definition loaded (h : host string) : state :=
  let s := (load_script (initial 0)).2 in
  (run_task h (CheckDomErrors 0) (set_pending [] s)).2.

(** A message of a hundred characters and more: the dedup key of the
    interceptor reads no further than [filler]. *)
Definition filler : string :=
  "0123456789012345678901234567890123456789012345678901234567890123456789012345678901234567890123456789".

Definition long_message (tail : string) : string := filler +:+ tail.

(** A monitor whose interceptor is installed and has reported "boom". *)
Definition intercepting : state :=
  State true MonitorError true true true true true (Some NativeError)
        "console-error-boom" 0 [] [] [] [].

End Monitor.

(** ** The injector *)

Module Injector.

(** *** A file system

    A path is the list of its components from the root; a node is a file
    with its content or a directory.  The root is a directory.  Permissions
    are not modelled: an operation fails only for want of a file or of a
    directory. *)

Abbreviation path := (list string).

Inductive node : Type :=
| File (content : string)
| Dir.

Abbreviation filesystem := (gmap path node).

Definition lookup_node (fs : filesystem) (p : path) : option node :=
  match p with
  | [] => Some Dir
  | _ => fs !! p
  end.

(** [path.dirname] *)
Definition dirname (p : path) : path := removelast p.

Definition is_dir (fs : filesystem) (p : path) : bool :=
  match lookup_node fs p with Some Dir => true | _ => false end.

Definition is_file (fs : filesystem) (p : path) : bool :=
  match lookup_node fs p with Some (File _) => true | _ => false end.

(** Lines written by [console.log] and [console.error]. *)
Inductive line : Type :=
| Out (text : string)
| Err (text : string).

Record process : Type := Process {
  files : filesystem;
  output : list line
}.

(** A computation returns, throws, or ends the process. *)
Inductive completion (A : Type) : Type :=
| Returned (a : A)
| Thrown (error : string)
| Exited (code : Z).
Arguments Returned {A} a.
Arguments Thrown {A} error.
Arguments Exited {A} code.

Definition M (A : Type) : Type := process -> completion A * process.

Definition ret {A} (a : A) : M A := fun p => (Returned a, p).
Definition throw {A} (e : string) : M A := fun p => (Thrown e, p).
Definition process_exit {A} (code : Z) : M A := fun p => (Exited code, p).
Definition bind {A B} (m : M A) (k : A -> M B) : M B :=
  fun p => match m p with
           | (Returned a, p') => k a p'
           | (Thrown e, p') => (Thrown e, p')
           | (Exited c, p') => (Exited c, p')
           end.
(** [try { m } catch (error) { h error }]: leaving the process is not an
    exception. *)
Definition try_catch {A} (m : M A) (h : string -> M A) : M A :=
  fun p => match m p with
           | (Thrown e, p') => h e p'
           | r => r
           end.

Declare Scope injector_scope.
Delimit Scope injector_scope with I.
Notation "x <- m ;; k" := (bind m (fun x => k))
  (at level 100, m at next level, right associativity) : injector_scope.
Notation "m ;;; k" := (bind m (fun _ => k))
  (at level 100, right associativity) : injector_scope.

Definition console_log (text : string) : M unit :=
  fun p => (Returned tt, Process (files p) (output p ++ [Out text])).
Definition console_error (text : string) : M unit :=
  fun p => (Returned tt, Process (files p) (output p ++ [Err text])).

Definition existsSync (p : path) : M bool :=
  fun pr => (Returned (bool_decide (is_Some (lookup_node (files pr) p))), pr).

Definition writeFileSync (p : path) (content : string) : M unit :=
  fun pr =>
    if negb (is_dir (files pr) (dirname p)) then (Thrown "ENOENT", pr)
    else if is_dir (files pr) p then (Thrown "EISDIR", pr)
    else (Returned tt, Process (<[p := File content]> (files pr)) (output pr)).

Definition readFileSync (p : path) : M string :=
  fun pr =>
    match lookup_node (files pr) p with
    | Some (File content) => (Returned content, pr)
    | Some Dir => (Thrown "EISDIR", pr)
    | None => (Thrown "ENOENT", pr)
    end.

(** [fs.mkdirSync(p, { recursive: true })], on the path read from its
    last component: a directory that exists is left alone, a file in the
    way is an error, and a missing directory is made once its parent is. *)
Fixpoint mkdir_parents (reversed : path) (fs : filesystem) : option filesystem :=
  match lookup_node fs (rev reversed) with
  | Some Dir => Some fs
  | Some (File _) => None
  | None =>
      match reversed with
      | [] => Some fs
      | _ :: parent =>
          match mkdir_parents parent fs with
          | Some fs' => Some (<[rev reversed := Dir]> fs')
          | None => None
          end
      end
  end.

Definition mkdirSync_recursive (p : path) : M unit :=
  fun pr =>
    match mkdir_parents (rev p) (files pr) with
    | Some fs => (Returned tt, Process fs (output pr))
    | None => (Thrown "ENOTDIR", pr)
    end.

Definition copyFileSync (src dst : path) : M unit :=
  fun pr =>
    match lookup_node (files pr) src with
    | Some (File content) => writeFileSync dst content pr
    | Some Dir => (Thrown "EISDIR", pr)
    | None => (Thrown "ENOENT", pr)
    end.

(** *** The two text patches *)

Fixpoint starts_with (prefix s : string) : bool :=
  match prefix, s with
  | "", _ => true
  | String a prefix', String b s' => Ascii.eqb a b && starts_with prefix' s'
  | _, "" => false
  end.

(** [s.includes(sub)] *)
Fixpoint includes (sub s : string) : bool :=
  starts_with sub s
  || match s with
     | "" => false
     | String _ s' => includes sub s'
     end.

(** [s.replace(/(marker)/, "$1" + added)]: the first occurrence of the
    literal marker is followed by [added]. *)
Fixpoint insert_after (marker added s : string) : string :=
  if starts_with marker s
  then marker +:+ added +:+ String.substring (String.length marker)
                                             (String.length s) s
  else match s with
       | "" => ""
       | String c s' => String c (insert_after marker added s')
       end.

(** The longest run of white space at the start of [s], and what follows. *)
Fixpoint span_white (s : string) : string * string :=
  match s with
  | String c s' =>
      if JS.is_white_space c then
        let r := span_white s' in (String c r.1, r.2)
      else ("", s)
  | "" => ("", "")
  end.

(** No character of [s] is white space. *)
Fixpoint white_free (s : string) : bool :=
  match s with
  | "" => true
  | String c s' => negb (JS.is_white_space c) && white_free s'
  end.

(** [s.replace(/(\s+)(<\/head>)/, "$1" + tag + "\n" + "$1$2")]: the
    leftmost closing tag that follows white space. *)
Fixpoint insert_before_head (tag s : string) : string :=
  match s with
  | "" => ""
  | String c s' =>
      let r := span_white s in
      if JS.is_white_space c && starts_with "</head>" r.2
      then r.1 +:+ tag +:+ String (ascii_of_N 10) "" +:+ r.1 +:+ r.2
      else String c (insert_before_head tag s')
  end.

Definition newline : string := String (ascii_of_N 10) "".
Definition quoted (s : string) : string :=
  String JS.dquote s +:+ String JS.dquote "".

Definition errorMonitorConfig : string :=
  newline +:+
  "// Error Monitor Configuration" +:+ newline +:+
  "const useLocalErrorMonitor = true; // Set to false for CDN" +:+ newline +:+
  "const errorMonitorSrc = useLocalErrorMonitor" +:+ newline +:+
  "    ? '/error-monitor.js' // Served from public folder" +:+ newline +:+
  "    : 'https://your-cdn-domain.com/error-monitor.js'; // Replace with your CDN URL"
  +:+ newline.

Definition scriptTag : string :=
  "                " +:+ newline +:+
  "                {/* Error Monitor - Load early to catch all errors */}" +:+ newline +:+
  "                <Script" +:+ newline +:+
  "                    src={errorMonitorSrc}" +:+ newline +:+
  "                    strategy=" +:+ quoted "beforeInteractive" +:+ newline +:+
  "                    crossOrigin=" +:+ quoted "anonymous" +:+ newline +:+
  "                />".

Definition patch_layout (layoutContent : string) : string :=
  let layoutContent :=
    insert_after "const isProd = process.env.NODE_ENV === 'production';"
                 (newline +:+ errorMonitorConfig) layoutContent in
  insert_before_head scriptTag layoutContent.

(** *** The script *)

Section Script.

(** The directory of the script, and the text of the monitor it writes. *)
Variable __dirname : path.
Variable errorMonitorScript : string.

Definition errorMonitorPath : path := (__dirname ++ ["error-monitor.js"])%list.
(** [path.join(__dirname, '../app/apps/current_session')] *)
Definition appPath : path := (dirname __dirname ++ ["app"; "apps"; "current_session"])%list.
Definition appErrorMonitorPath : path := (appPath ++ ["public"; "error-monitor.js"])%list.
Definition publicDir : path := dirname appErrorMonitorPath.
Definition layoutPath : path := (appPath ++ ["app"; "layout.tsx"])%list.

(** The messages are given without their pictograms. *)
Definition inject : M unit :=
  (try_catch
     (writeFileSync errorMonitorPath errorMonitorScript ;;;
      console_log "error-monitor.js created successfully" ;;;
      app <- existsSync appPath ;;
      (if negb app then
         console_error "App directory not found:" ;;;
         console_log "Please update the appPath variable to point to your Next.js app directory" ;;;
         process_exit 1
       else ret tt) ;;;
      public <- existsSync publicDir ;;
      (if negb public then mkdirSync_recursive publicDir else ret tt) ;;;
      copyFileSync errorMonitorPath appErrorMonitorPath ;;;
      console_log "error-monitor.js copied to app/public folder" ;;;
      layout <- existsSync layoutPath ;;
      (if layout then
         layoutContent <- readFileSync layoutPath ;;
         if includes "error-monitor.js" layoutContent then
           console_log "Error monitor already exists in layout.tsx"
         else
           writeFileSync layoutPath (patch_layout layoutContent) ;;;
           console_log "layout.tsx updated with error monitor"
       else
         console_log "layout.tsx not found at:" ;;;
         console_log "Please manually add the error monitor script to your layout file") ;;;
      console_log "Setup complete!" ;;;
      console_log "Next steps:" ;;;
      console_log "1. Your error monitor is now available at /error-monitor.js" ;;;
      console_log "2. Start your Next.js app to test error monitoring" ;;;
      console_log "3. For production, upload error-monitor.js to a CDN and update the URL in layout.tsx")
     (fun error =>
        console_error "Error in inject.js:" ;;;
        process_exit 1))%I.

(** The exit code of the process: that of [process.exit], 0 when the script
    runs to its end, 1 for an exception nobody caught. *)
Definition exit_code (p : process) : Z :=
  match (inject p).1 with
  | Returned _ => 0
  | Thrown _ => 1
  | Exited code => code
  end.

End Script.

(** *** Two file systems, for examples

    The script lies in [/srv/tool] and the application in
    [/srv/app/apps/current_session], without a layout file. *)

Definition tool_dir : path := ["srv"; "tool"].

Definition app_without_layout : filesystem :=
  list_to_map
    [(["srv"], Dir);
     (["srv"; "tool"], Dir);
     (["srv"; "app"], Dir);
     (["srv"; "app"; "apps"], Dir);
     (["srv"; "app"; "apps"; "current_session"], Dir)].

(** The same, where [public] is a regular file of the application. *)
Definition app_with_public_file : filesystem :=
  <[ ["srv"; "app"; "apps"; "current_session"; "public"] := File "assets" ]>
    app_without_layout.

(** The application with a layout file of the given content. *)
Definition app_with_layout (layoutContent : string) : filesystem :=
  <[ ["srv"; "app"; "apps"; "current_session"; "app"; "layout.tsx"] := File layoutContent ]>
    (<[ ["srv"; "app"; "apps"; "current_session"; "app"] := Dir ]> app_without_layout).

(** A layout with the line and the closing tag that the patch looks for. *)
Definition layout_example : string :=
  "const isProd = process.env.NODE_ENV === 'production';" +:+ newline +:+
  "<html>" +:+ newline +:+ "  <head>" +:+ newline +:+ "  </head>" +:+ newline +:+ "</html>".

End Injector.

(** * Properties *)

(** A closed goal settled by evaluation. *)
Ltac evaluate := vm_compute; reflexivity.

(** ** The value language *)

Module JSFacts.
Import JS.

Section Host.

Variable Number_toString_large : Z -> string.
Variable parseFloat_toString : string -> string.

Local Abbreviation format := (formatMessageWithPlaceholders Number_toString_large parseFloat_toString).
Local Abbreviation coerce_all := (space_joined_coercion Number_toString_large).

Example format_hex :
  format (VStr "%i%% %c") [VStr "  -0x1fz"; VNull; VNull; VBool true]
  = Ok "-31%% %c null true".
Proof. vm_compute. reflexivity. Qed.

Example format_missing_argument :
  format (VStr "%s and %d") [] = Ok "undefined and NaN".
Proof. vm_compute. reflexivity. Qed.

Lemma omap_String_join (vs : list value) :
  (ss <- omap (String_ Number_toString_large) vs ;; Ok (join " " ss))%outcome
  = coerce_all vs.
Proof.
  induction vs as [|v vs IH]; [reflexivity|].
  cbn [omap space_joined_coercion obind].
  destruct (String_ Number_toString_large v) as [str|e]; cbn [obind]; [|reflexivity].
  destruct vs as [|w ws]; [reflexivity|].
  rewrite <- IH. clear IH.
  destruct (omap (String_ Number_toString_large) (w :: ws)) as [ss|e] eqn:E;
    cbn [obind]; [|reflexivity].
  destruct ss as [|x xs]; [|reflexivity].
  cbn [omap obind] in E.
  destruct (String_ Number_toString_large w); cbn [obind] in E; [|discriminate].
  destruct (omap (String_ Number_toString_large) ws); cbn [obind] in E; discriminate.
Qed.

(** C5: the formatter turns "Value: %s, Count: %d" with the arguments "foo"
    and "3" into "Value: foo, Count: 3"; and when the first argument is not
    a string, the result is the space-joined string coercion of all the
    arguments, the first one included (an argument whose coercion throws
    makes both throw). *)
Theorem formatMessageWithPlaceholders_spec :
  format (VStr "Value: %s, Count: %d") [VStr "foo"; VStr "3"]
  = Ok "Value: foo, Count: 3"
  /\ forall template args,
       typeof template <> TString ->
       format template args = coerce_all (template :: args).
Proof.
  split; [evaluate|].
  intros template args Hty.
  rewrite <- omap_String_join.
  destruct template; try reflexivity.
  contradiction Hty. reflexivity.
Qed.

End Host.

Lemma formatMessageWithPlaceholders_spec_witness :
  typeof (VNum (Int 404)) <> TString
  /\ formatMessageWithPlaceholders (fun _ => "") (fun s => s)
       (VNum (Int 404)) [VStr "not found"; VNull]
     = Ok "404 not found null".
Proof.
  split; [discriminate|].
  rewrite (proj2 (formatMessageWithPlaceholders_spec (fun _ => "") (fun s => s)));
    [reflexivity | discriminate].
Defined.

End JSFacts.

(** ** The monitor script *)

Module MonitorFacts.
Import JS Monitor.

(** *** The wait for the header element *)

Section Wait.

Context {Element : Type} (h : host Element).
Implicit Types (shadow : ShadowRoot Element) (delay count retries t : Z).

Lemma check_eq shadow delay count t :
  check h shadow delay count t =
  match shadow t with
  | Some el => (Some el, [t])
  | None =>
      if decide (count <= 0) then (None, [t])
      else let later := check h shadow delay (count - 1) (fires h t delay) in
           (later.1, t :: later.2)
  end.
Proof.
  funelim (check h shadow delay count t).
  - rewrite Heq. reflexivity.
  - rewrite Heq0, Heq. reflexivity.
  - rewrite Heq0, Heq. simpl. simp check. reflexivity.
Qed.

Lemma poll_times_S t delay n :
  poll_times h t delay (S n) = t :: poll_times h (fires h t delay) delay n.
Proof.
  unfold poll_times. cbn [seq map poll_time]. f_equal.
  rewrite <- seq_shift, map_map. reflexivity.
Qed.

Lemma length_poll_times t delay n : length (poll_times h t delay n) = n.
Proof. unfold poll_times. rewrite length_map, length_seq. reflexivity. Qed.

Lemma lookup_poll_times t delay n (k : nat) :
  (k < n)%nat -> poll_times h t delay n !! k = Some (poll_time h t delay k).
Proof.
  intros Hk. unfold poll_times. rewrite list_lookup_fmap, lookup_seq_lt by exact Hk.
  reflexivity.
Qed.

Lemma last_poll_times t delay n :
  List.last (poll_times h t delay (S n)) t = poll_time h t delay n.
Proof.
  unfold poll_times. rewrite seq_S, map_app. cbn [map].
  rewrite last_last. reflexivity.
Qed.

(** A timer fires after the timer before it, by the delay or more. *)
Lemma poll_time_S t delay (k : nat) :
  poll_time h t delay (S k) = fires h (poll_time h t delay k) delay.
Proof.
  revert t. induction k as [|k IH]; intros t; [reflexivity|].
  change (poll_time h t delay (S (S k))) with (poll_time h (fires h t delay) delay (S k)).
  rewrite IH. reflexivity.
Qed.

Lemma fires_lower t delay : t + Z.max 0 delay <= fires h t delay.
Proof. unfold fires. lia. Qed.

Lemma fires_on_time t delay : on_time h -> fires h t delay = t + Z.max 0 delay.
Proof. intros Hon. unfold fires. specialize (Hon t). lia. Qed.

Lemma poll_time_lower t delay (k : nat) :
  t + Z.of_nat k * Z.max 0 delay <= poll_time h t delay k.
Proof.
  induction k as [|k IH]; [cbn; lia|].
  rewrite poll_time_S. pose proof (fires_lower (poll_time h t delay k) delay). lia.
Qed.

Lemma poll_time_on_time t delay (k : nat) :
  on_time h -> poll_time h t delay k = t + Z.of_nat k * Z.max 0 delay.
Proof.
  intros Hon. induction k as [|k IH]; [cbn; lia|].
  rewrite poll_time_S, fires_on_time, IH by exact Hon. lia.
Qed.

(** What [check] does, by the number [n] of timers it waited for: it
    queried at [n + 1] times, found nothing before the last one, resolved
    with what the last query found, and gave up only with [count] timers
    spent. *)
Lemma check_polls shadow delay count t :
  exists n : nat,
    (check h shadow delay count t).2 = poll_times h t delay (S n)
    /\ (n <= Z.to_nat count)%nat
    /\ (forall k : nat, (k < n)%nat -> shadow (poll_time h t delay k) = None)
    /\ (check h shadow delay count t).1 = shadow (poll_time h t delay n)
    /\ ((check h shadow delay count t).1 = None -> n = Z.to_nat count).
Proof.
  remember (Z.to_nat count) as m eqn:Hm.
  revert count t Hm. induction m as [|m IH]; intros count t Hm.
  - exists 0%nat. rewrite check_eq. cbn [poll_time].
    destruct (shadow t) as [el|] eqn:Hs; cbn [fst snd].
    + split; [reflexivity|]. split; [lia|]. split; [intros k Hk; lia|].
      split; [reflexivity|discriminate].
    + destruct (decide (count <= 0)); [|lia]. cbn [fst snd].
      split; [reflexivity|]. split; [lia|]. split; [intros k Hk; lia|].
      split; [reflexivity|intros _; lia].
  - rewrite check_eq. destruct (shadow t) as [el|] eqn:Hs.
    + exists 0%nat. cbn [poll_time]. rewrite Hs. cbn [fst snd].
      split; [reflexivity|]. split; [lia|]. split; [intros k Hk; lia|].
      split; [reflexivity|discriminate].
    + destruct (decide (count <= 0)) as [Hle|Hgt]; [lia|].
      destruct (IH (count - 1) (fires h t delay)) as (n & Hp & Hn & Hnone & Hres & Hex);
        [lia|].
      exists (S n). cbn zeta. cbn [fst snd].
      split; [rewrite (poll_times_S t delay (S n)), Hp; reflexivity|].
      split; [lia|].
      split.
      { intros [|k] Hk; [exact Hs|]. apply Hnone. lia. }
      split; [exact Hres|].
      intros Hr. rewrite (Hex Hr). lia.
Qed.

(** C8 (amended): the wait always resolves.  With [retries] retries it
    queries the shadow root at most [retries + 1] times (11 with the
    defaults: a first query and up to 10 more), the first time at once and
    then each time when a timer of [delay] milliseconds fires, which is
    [delay] milliseconds after the query before or later; every query but
    the last found no header and the wait resolves with what the last one
    found, so it stops at the first match and resolves with no element only
    when all [retries + 1] queries failed.  The wait lasts about
    [retries * delay] milliseconds (2 seconds) at most: a wait that resolves
    with no element lasts that long or longer, and when every timer fires on
    time the queries are [delay] apart and no wait lasts longer. *)
Theorem waitForHeaderElement_bounded shadow retries delay (s : state) :
  0 <= retries -> 0 <= delay ->
  let polls := (check h shadow delay retries (clock s)).2 in
  let r := waitForHeaderElement h shadow retries delay s in
  exists header,
    r.1 = Ok header
    /\ (length polls <= Z.to_nat retries + 1)%nat
    /\ polls !! 0%nat = Some (clock s)
    /\ (forall (k : nat) (u : Z), (S k < length polls)%nat -> polls !! k = Some u ->
          shadow u = None
          /\ polls !! S k = Some (fires h u delay)
          /\ u + delay <= fires h u delay)
    /\ List.last polls (clock s) = clock r.2
    /\ header = shadow (clock r.2)
    /\ (header = None -> length polls = (Z.to_nat retries + 1)%nat)
    /\ clock s + (Z.of_nat (length polls) - 1) * delay <= clock r.2
    /\ (header = None -> clock s + retries * delay <= clock r.2)
    /\ (on_time h ->
        (forall k : nat, (k < length polls)%nat ->
           polls !! k = Some (clock s + Z.of_nat k * delay))
        /\ clock r.2 = clock s + (Z.of_nat (length polls) - 1) * delay
        /\ clock r.2 - clock s <= retries * delay).
Proof.
  intros Hr Hd polls r.
  destruct (check_polls shadow delay retries (clock s))
    as (n & Hp & Hn & Hnone & Hres & Hex).
  assert (Hmax : Z.max 0 delay = delay) by lia.
  assert (Hlen : length polls = S n).
  { unfold polls. rewrite Hp. apply length_poll_times. }
  assert (Hclock : clock r.2 = poll_time h (clock s) delay n).
  { unfold r, waitForHeaderElement. cbn [snd clock set_clock]. rewrite Hp.
    apply last_poll_times. }
  pose proof (poll_time_lower (clock s) delay n) as Hlow. rewrite Hmax in Hlow.
  exists (check h shadow delay retries (clock s)).1.
  split; [reflexivity|].
  split; [lia|].
  split; [unfold polls; rewrite Hp; apply lookup_poll_times; lia|].
  split.
  { intros k u Hk Hu. unfold polls in Hu |- *. rewrite Hp in Hu |- *.
    rewrite lookup_poll_times in Hu by lia. injection Hu as <-.
    split; [apply Hnone; lia|].
    split; [rewrite lookup_poll_times by lia; rewrite poll_time_S; reflexivity|].
    pose proof (fires_lower (poll_time h (clock s) delay k) delay). lia. }
  split; [unfold polls; rewrite Hp, Hclock; apply last_poll_times|].
  split; [rewrite Hclock; exact Hres|].
  split; [intros Hnone'; rewrite Hlen, (Hex Hnone'); lia|].
  split; [rewrite Hclock, Hlen; lia|].
  split.
  { intros Hnone'. rewrite Hclock. pose proof (Hex Hnone') as ->.
    rewrite Z2Nat.id in Hlow by lia. exact Hlow. }
  intros Hon. pose proof (poll_time_on_time (clock s) delay) as Heq.
  split.
  { intros k Hk. unfold polls. rewrite Hp, lookup_poll_times by lia.
    rewrite (Heq k Hon), Hmax. reflexivity. }
  rewrite Hclock, (Heq n Hon), Hmax, Hlen. split; [lia|]. nia.
Qed.

(** A header that is there at one of the queries is found. *)
Lemma check_finds shadow delay count t (k : nat) :
  (k <= Z.to_nat count)%nat ->
  shadow (poll_time h t delay k) <> None ->
  (check h shadow delay count t).1 <> None.
Proof.
  intros Hk Hthere Hnone.
  destruct (check_polls shadow delay count t) as (n & _ & _ & Hbefore & Hres & Hex).
  pose proof (Hex Hnone) as Hn. subst n.
  destruct (decide (k = Z.to_nat count)) as [->|Hne].
  - rewrite <- Hres in Hthere. contradiction.
  - apply Hthere, Hbefore. lia.
Qed.

End Wait.

(** *** Running the computations *)

Ltac st :=
  cbn [fst snd errorMonitorInitialized console_error onerror onunhandledrejection
       cleanupErrorMonitor observing isInitialized originalConsole lastErrorHash
       clock sent posted console_out pending
       set_console_error set_handlers set_cleanupErrorMonitor set_observing
       set_errorMonitorInitialized set_isInitialized set_originalConsole
       set_lastErrorHash set_clock add_sent add_posted add_console_out add_pending
       set_pending window_of negb] in *.

Ltac run :=
  unfold console_log, console_warn, call_native_error in *;
  unfold Monitor.bind, Monitor.ret, Monitor.throw, Monitor.try_catch, Monitor.lift,
    gets, modify in *;
  st.

(** *** The flows *)

Section Flows.
Context {Element : Type} (h : host Element).

Lemma quiet_refl s : quiet s s.
Proof. split; [reflexivity|]. intros _. split; reflexivity. Qed.

Lemma quiet_trans s1 s2 s3 : quiet s1 s2 -> quiet s2 s3 -> quiet s1 s3.
Proof.
  intros [Hw1 Hn1] [Hw2 Hn2]. split; [congruence|].
  intros Hnat. destruct (Hn1 Hnat) as [Hh Hp].
  assert (Hnat2 : console_error s2 = NativeError).
  { unfold window_of in Hw1. congruence. }
  destruct (Hn2 Hnat2) as [Hh2 Hp2]. split; congruence.
Qed.

Lemma quiet_consistent s s' : quiet s s' -> consistent s -> consistent s'.
Proof.
  intros [Hw _] Hc. unfold consistent, window_of in *.
  injection Hw as _ He _ _ _ _ _ Ho. rewrite Ho, He. exact Hc.
Qed.

(** A flow for the method "error" is entered with two lines written, and
    the clock read. *)
Lemma start_handleConsoleError_error message args s :
  start_handleConsoleError "error" message args s
  = (Ok tt,
     add_pending (HandleConsoleError "error" message args (clock s))
       (add_console_out (Log "Checking for Next.js errors in DOM")
          (add_console_out (Log "Handling error message:") s))).
Proof. reflexivity. Qed.

Lemma interceptor_quiet args s :
  originalConsole s = Some NativeError ->
  console_error s = MonitorError ->
  exists s', interceptor h args s = (Ok tt, s')
             /\ quiet s s' /\ clock s' = clock s /\ sent s' = sent s /\ posted s' = posted s
             /\ exists out, console_out s' = (console_out s ++ out ++ [Error args])%list.
Proof.
  intros Ho Hc. unfold interceptor. run.
  destruct (formatMessageWithPlaceholders _ _ _ _) as [formatted|e]; run.
  - destruct (bool_decide _); run; rewrite ?start_handleConsoleError_error; st;
      rewrite Ho; run; eexists; (split; [reflexivity|]);
      (split; [split; [reflexivity|intros Hn; congruence]|]);
      repeat (split; [reflexivity|]).
    + exists [Log "Handling error message:"; Log "Checking for Next.js errors in DOM"].
      st. rewrite <- !app_assoc. reflexivity.
    + exists []. reflexivity.
  - rewrite Ho. eexists. split; [reflexivity|].
    split; [split; [reflexivity|intros Hn; congruence]|].
    st. repeat (split; [reflexivity|]). exists [Log "Error in console error interceptor:"].
    rewrite <- app_assoc. reflexivity.
Qed.

Lemma call_console_error_quiet args s :
  consistent s ->
  exists s', call_console_error h args s = (Ok tt, s')
             /\ quiet s s' /\ clock s' = clock s /\ sent s' = sent s /\ posted s' = posted s
             /\ exists out, console_out s' = (console_out s ++ out ++ [Error args])%list.
Proof.
  intros Hc. unfold call_console_error.
  destruct (console_error s) eqn:He.
  - run. eexists. split; [reflexivity|].
    split; [split; [reflexivity|intros _; split; reflexivity]|].
    repeat (split; [reflexivity|]). exists []. reflexivity.
  - apply interceptor_quiet; [|exact He].
    unfold consistent in Hc. destruct (originalConsole s); congruence.
Qed.

Lemma consistent_frame s s' :
  originalConsole s' = originalConsole s -> console_error s' = console_error s ->
  consistent s -> consistent s'.
Proof. unfold consistent. intros -> ->. trivial. Qed.

Lemma sendToWebhook_spec data s :
  consistent s ->
  exists s', sendToWebhook h data s = (Ok tt, s')
    /\ quiet s s' /\ clock s' = clock s
    /\ sent s' = (sent s ++ [data])%list
    /\ posted s' = (posted s ++ delivered h data)%list
    /\ (in_frame h = false ->
        console_out s' = (console_out s ++
          [Log "Send to webhook"; Warn "Parent window not available for postMessage."])%list)
    /\ (forall err, in_frame h = true ->
        postMessage_throws h (Envelope "superengineer" data) = Some err ->
        exists out, console_out s' = (console_out s ++ out ++
          [Error [VStr "Failed to send message to parent:"; err]])%list).
Proof.
  intros Hc. unfold sendToWebhook, delivered. run.
  destruct (in_frame h) eqn:Hf.
  - destruct (postMessage_throws h _) as [err|] eqn:Hp; run.
    + match goal with |- context [call_console_error h ?a ?s0] =>
        destruct (call_console_error_quiet a s0) as (s' & Hr & Hq & Hcl & Hs & Hpo & out & Hout)
      end.
      { revert Hc. apply consistent_frame; reflexivity. }
      exists s'. rewrite Hr. st. split; [reflexivity|].
      split.
      { destruct Hq as [Hw Hn]. split; [exact Hw|]. exact Hn. }
      split; [exact Hcl|]. split; [exact Hs|].
      split; [rewrite Hpo, app_nil_r; reflexivity|].
      split; [discriminate|].
      intros err' _ [= <-]. exists (Log "Send to webhook" :: out).
      rewrite Hout, <- !app_assoc. reflexivity.
    + eexists. split; [reflexivity|]. st.
      split; [split; [reflexivity|intros _; split; reflexivity]|].
      repeat (split; [reflexivity|]). split; [discriminate|]. intros err _ [=].
  - eexists. split; [reflexivity|]. st.
    split; [split; [reflexivity|intros _; split; reflexivity]|].
    split; [reflexivity|]. split; [reflexivity|].
    split; [rewrite app_nil_r; reflexivity|].
    split; [intros _; rewrite <- app_assoc; reflexivity|]. discriminate.
Qed.

Lemma scan_spec portals : forall found s,
  consistent s ->
  exists s',
    scan h portals found s
    = (Ok (match (locate h portals (clock s)).1 with Some _ => true | None => found end), s')
    /\ quiet s s'
    /\ clock s' = (locate h portals (clock s)).2
    /\ sent s' = (sent s ++ dom_report h portals (clock s))%list
    /\ posted s' = (posted s ++ flat_map (delivered h) (dom_report h portals (clock s)))%list.
Proof.
  induction portals as [|p rest IH]; intros found s Hc.
  - exists s. unfold dom_report. cbn. run. rewrite !app_nil_r.
    repeat (split; [reflexivity|]). split; [apply quiet_refl|]. repeat split; reflexivity.
  - unfold dom_report in *. cbn [scan locate]. run.
    destruct (shadowRoot p (clock s)) as [shadow|]; [|apply IH; exact Hc].
    unfold waitForHeaderElement. st.
    set (r := check h shadow default_delay default_retries (clock s)).
    destruct (r.1) as [el|] eqn:Hr; st.
    + match goal with |- context [sendToWebhook h ?d ?s0] =>
        destruct (sendToWebhook_spec d s0) as (s' & Hs' & Hq & Hcl & Hsent & Hpost & _)
      end.
      { revert Hc. apply consistent_frame; reflexivity. }
      rewrite Hs'. st. eexists. split; [reflexivity|]. st.
      split.
      { destruct Hq as [Hw Hn]. split; [exact Hw|exact Hn]. }
      split; [exact Hcl|]. split; [exact Hsent|].
      rewrite Hpost. cbn [flat_map]. rewrite app_nil_r. reflexivity.
    + destruct (IH found (set_clock (List.last r.2 (clock s)) s)) as (s' & Hs' & Hq & Hrest).
      { revert Hc. apply consistent_frame; reflexivity. }
      exists s'. st. split; [exact Hs'|]. split; [|exact Hrest].
      destruct Hq as [Hw Hn]. split; [exact Hw|exact Hn].
Qed.

Lemma checkDomErrors_from_spec s :
  consistent s ->
  let portals := document h (clock s) in
  exists s',
    checkDomErrors_from h (clock s) s
    = (Ok (match (locate h portals (clock s)).1 with Some _ => true | None => false end), s')
    /\ quiet s s'
    /\ clock s' = (locate h portals (clock s)).2
    /\ sent s' = (sent s ++ dom_report h portals (clock s))%list
    /\ posted s' = (posted s ++ flat_map (delivered h) (dom_report h portals (clock s)))%list.
Proof. intros Hc portals. unfold checkDomErrors_from. apply scan_spec, Hc. Qed.

Lemma checkDomErrors_spec s :
  consistent s ->
  let portals := document h (clock s) in
  exists s',
    checkDomErrors h s
    = (Ok (match (locate h portals (clock s)).1 with Some _ => true | None => false end), s')
    /\ quiet s s'
    /\ clock s' = (locate h portals (clock s)).2
    /\ sent s' = (sent s ++ dom_report h portals (clock s))%list
    /\ posted s' = (posted s ++ flat_map (delivered h) (dom_report h portals (clock s)))%list.
Proof.
  intros Hc portals. unfold checkDomErrors, checkDomErrors_enter. run.
  match goal with |- context [checkDomErrors_from h _ ?s0] =>
    destruct (checkDomErrors_from_spec s0) as (s' & Hs' & Hq & Hrest)
  end.
  { revert Hc. apply consistent_frame; reflexivity. }
  st. exists s'. split; [exact Hs'|]. split; [|exact Hrest].
  destruct Hq as [Hw Hn]. split; [exact Hw|exact Hn].
Qed.

(** The flow of [handleConsoleError] from its [await] on, case by case. *)
Lemma handleConsoleError_from_spec method message args s :
  consistent s ->
  let portals := document h (clock s) in
  let found := locate h portals (clock s) in
  exists s',
    quiet s s'
    /\ match found.1, serialize_args h args with
       | Some el, _ =>
           let report := DomEvent (serializeToString h el) (toISOString h found.2) in
           handleConsoleError_from h method message args (clock s) s = (Ok VUndefined, s')
           /\ sent s' = (sent s ++ [report])%list
           /\ posted s' = (posted s ++ delivered h report)%list
       | None, Ok serialized =>
           let report := ConsoleEvent method message serialized isServer
                                      (toISOString h found.2) in
           handleConsoleError_from h method message args (clock s) s = (Ok VUndefined, s')
           /\ sent s' = (sent s ++ [report])%list
           /\ posted s' = (posted s ++ delivered h report)%list
       | None, Throw e =>
           handleConsoleError_from h method message args (clock s) s = (Throw e, s')
           /\ sent s' = sent s
           /\ posted s' = posted s
       end.
Proof.
  intros Hc portals found. unfold handleConsoleError_from. run.
  destruct (checkDomErrors_from_spec s Hc) as (s1 & Hs1 & Hq & Hcl1 & Hsent1 & Hpost1).
  fold portals in Hs1, Hcl1, Hsent1, Hpost1. fold found in Hs1, Hcl1.
  unfold dom_report in Hsent1, Hpost1. fold found in Hsent1, Hpost1.
  rewrite Hs1. clear Hs1.
  destruct (found.1) as [el|]; st.
  - eexists. split; [|split; [reflexivity|]].
    + destruct Hq as [Hw Hn]. split; [exact Hw|exact Hn].
    + st. split; [exact Hsent1|]. rewrite Hpost1. cbn [flat_map].
      rewrite app_nil_r. reflexivity.
  - rewrite app_nil_r in Hsent1. cbn [flat_map] in Hpost1. rewrite app_nil_r in Hpost1.
    destruct (serialize_args h args) as [serialized|e]; st.
    + match goal with |- context [sendToWebhook h ?d ?s0] =>
        destruct (sendToWebhook_spec d s0) as (s2 & Hs2 & Hq2 & Hcl2 & Hsent2 & Hpost2 & _)
      end.
      { apply (quiet_consistent s); [|exact Hc].
        destruct Hq as [Hw Hn]. split; [exact Hw|exact Hn]. }
      st. rewrite Hcl1 in Hs2, Hpost2, Hsent2. rewrite Hcl1.
      exists s2. rewrite Hs2. split.
      { apply (quiet_trans s s1); [exact Hq|].
        destruct Hq2 as [Hw Hn]. split; [exact Hw|exact Hn]. }
      split; [reflexivity|]. rewrite Hsent2, Hpost2, Hsent1, Hpost1. split; reflexivity.
    + eexists. split; [|split; [reflexivity|]].
      * destruct Hq as [Hw Hn]. split; [exact Hw|exact Hn].
      * st. split; assumption.
Qed.

(** The whole flow of [handleConsoleError], case by case. *)
Lemma handleConsoleError_spec message args s :
  consistent s ->
  let portals := document h (clock s) in
  let found := locate h portals (clock s) in
  exists s',
    quiet s s'
    /\ match found.1, serialize_args h args with
       | Some el, _ =>
           let report := DomEvent (serializeToString h el) (toISOString h found.2) in
           handleConsoleError h "error" message args s = (Ok VUndefined, s')
           /\ sent s' = (sent s ++ [report])%list
           /\ posted s' = (posted s ++ delivered h report)%list
       | None, Ok serialized =>
           let report := ConsoleEvent "error" message serialized isServer
                                      (toISOString h found.2) in
           handleConsoleError h "error" message args s = (Ok VUndefined, s')
           /\ sent s' = (sent s ++ [report])%list
           /\ posted s' = (posted s ++ delivered h report)%list
       | None, Throw e =>
           handleConsoleError h "error" message args s = (Throw e, s')
           /\ sent s' = sent s
           /\ posted s' = posted s
       end.
Proof.
  intros Hc portals found.
  unfold handleConsoleError, handleConsoleError_enter, checkDomErrors_enter. run.
  rewrite bool_decide_false by (intros Hne; apply Hne; reflexivity). st.
  match goal with |- context [handleConsoleError_from h _ _ _ _ ?s0] =>
    destruct (handleConsoleError_from_spec "error" message args s0) as (s' & Hq & Hcase)
  end.
  { revert Hc. apply consistent_frame; reflexivity. }
  st. fold portals in Hcase. fold found in Hcase.
  exists s'. split; [destruct Hq as [Hw Hn]; split; [exact Hw|exact Hn]|].
  exact Hcase.
Qed.

(** Overlays that follow the located one are not looked at. *)
Lemma locate_app (portals more : list (portal Element)) : forall t,
  (locate h portals t).1 <> None ->
  locate h (portals ++ more) t = locate h portals t.
Proof.
  induction portals as [|p rest IH]; intros t Hf; [contradiction Hf; reflexivity|].
  cbn [locate app] in *.
  destruct (shadowRoot p t) as [shadow|]; [|apply IH; exact Hf].
  destruct (check h shadow default_delay default_retries t).1; [reflexivity|].
  apply IH. exact Hf.
Qed.

(** A document without overlay has no header to locate; an overlay at the
    head of the document whose shadow root shows a header at one of the
    eleven queries has its header located. *)
Lemma locate_no_overlay t : locate h (@nil (portal Element)) t = (None, t).
Proof. reflexivity. Qed.

Lemma locate_first_overlay (p : portal Element) rest shadow t (k : nat) :
  shadowRoot p t = Some shadow ->
  (k <= 10)%nat ->
  shadow (poll_time h t default_delay k) <> None ->
  (locate h (p :: rest) t).1 <> None.
Proof.
  intros Hs Hk Hthere. cbn [locate]. rewrite Hs.
  pose proof (check_finds h shadow default_delay default_retries t k) as Hfound.
  change (Z.to_nat default_retries) with 10%nat in Hfound.
  destruct (check h shadow default_delay default_retries t).1; [discriminate|].
  exfalso. apply Hfound; [exact Hk|exact Hthere|reflexivity].
Qed.

Lemma scan_app (portals more : list (portal Element)) : forall found s,
  consistent s ->
  (locate h portals (clock s)).1 <> None ->
  scan h (portals ++ more) found s = scan h portals found s.
Proof.
  induction portals as [|p rest IH]; intros found s Hc Hf; [contradiction Hf; reflexivity|].
  cbn [scan app locate] in *. run.
  destruct (shadowRoot p (clock s)) as [shadow|]; [|apply IH; assumption].
  unfold waitForHeaderElement. st.
  destruct (check h shadow default_delay default_retries (clock s)).1 as [el|]; st.
  - match goal with |- context [sendToWebhook h ?d ?s0] =>
      destruct (sendToWebhook_spec d s0) as (s' & Hs' & _)
    end.
    { revert Hc. apply consistent_frame; reflexivity. }
    rewrite Hs'. reflexivity.
  - apply IH; [|exact Hf]. revert Hc. apply consistent_frame; reflexivity.
Qed.

Lemma scan_with_more_overlays (more portals : list (portal Element)) found s :
  scan (with_more_overlays h more) portals found s = scan h portals found s.
Proof. reflexivity. Qed.

(** C4: a scan of the document for overlays never throws and sends (hands
    to [sendToWebhook]) at most one event, a DOM event, which reaches the
    parent as delivery allows.  What it finds is read off the document: the
    scan returns [true], and sends the markup of the header, exactly when
    an overlay of the document, in document order, has a shadow root whose
    header resolves during the wait ([locate]); so it returns [false] and
    sends nothing for a document without overlay, and [true] when the first
    overlay has a shadow root that shows a header at one of the eleven
    queries.  It stops at the overlay it reported: whatever overlays follow
    in the document, the scan does and returns the same. *)
Theorem checkDomErrors_reports_once (more : list (portal Element)) s :
  consistent s ->
  let located := locate h (document h (clock s)) (clock s) in
  exists found s',
    checkDomErrors h s = (Ok found, s')
    /\ (exists report,
          sent s' = (sent s ++ report)%list
          /\ posted s' = (posted s ++ flat_map (delivered h) report)%list
          /\ (length report <= 1)%nat
          /\ forallb is_dom report = true
          /\ (found = true <-> length report = 1%nat))
    /\ (found = true ->
        checkDomErrors (with_more_overlays h more) s = checkDomErrors h s)
    /\ (forall el, located.1 = Some el ->
          found = true
          /\ sent s' = (sent s ++ [DomEvent (serializeToString h el)
                                            (toISOString h located.2)])%list)
    /\ (located.1 = None -> found = false /\ sent s' = sent s /\ posted s' = posted s)
    /\ (document h (clock s) = [] -> found = false)
    /\ (forall (p : portal Element) rest shadow (k : nat),
          document h (clock s) = p :: rest ->
          shadowRoot p (clock s) = Some shadow ->
          (k <= 10)%nat ->
          shadow (poll_time h (clock s) default_delay k) <> None ->
          found = true).
Proof.
  intros Hc located.
  destruct (checkDomErrors_spec s Hc) as (s' & Hs' & Hq & Hcl & Hsent & Hpost).
  fold located in Hs'. unfold dom_report in Hsent, Hpost. fold located in Hsent, Hpost.
  eexists. exists s'. split; [exact Hs'|]. split; [|split; [|split; [|split; [|split]]]].
  - exists (dom_report h (document h (clock s)) (clock s)).
    unfold dom_report. fold located.
    split; [exact Hsent|]. split; [exact Hpost|].
    destruct located.1; cbn.
    + repeat split; auto.
    + repeat split; auto; discriminate.
  - intros Hfound.
    unfold checkDomErrors, checkDomErrors_enter, checkDomErrors_from. run.
    rewrite scan_with_more_overlays.
    apply scan_app.
    + revert Hc. apply consistent_frame; reflexivity.
    + st. fold located. destruct located.1; [discriminate|].
      discriminate Hfound.
  - intros el Hel. rewrite Hel in Hsent |- *. split; [reflexivity|exact Hsent].
  - intros Hnone. rewrite Hnone in Hsent, Hpost |- *. cbn [flat_map] in Hpost.
    rewrite app_nil_r in Hsent, Hpost. repeat split; assumption.
  - intros Hdoc. unfold located. rewrite Hdoc. reflexivity.
  - intros p rest shadow k Hdoc Hsh Hk Hthere.
    pose proof (locate_first_overlay p rest shadow (clock s) k Hsh Hk Hthere) as Hloc.
    unfold located. rewrite Hdoc. destruct (locate h (p :: rest) (clock s)).1;
      [reflexivity|contradiction Hloc; reflexivity].
Qed.

(** C7: delivery never throws.  The event is posted to the parent, in an
    envelope whose source is "superengineer", when the window has a distinct
    parent and posting succeeds, and then only; without a distinct parent
    nothing is posted and a warning is written; and when posting throws,
    the exception is caught and written with [console.error]. *)
Theorem sendToWebhook_delivery data s :
  consistent s ->
  let message := Envelope "superengineer" data in
  exists s',
    sendToWebhook h data s = (Ok tt, s')
    /\ (in_frame h = true -> postMessage_throws h message = None ->
        posted s' = (posted s ++ [message])%list)
    /\ (in_frame h = false ->
        posted s' = posted s
        /\ List.last (console_out s') (Log "")
           = Warn "Parent window not available for postMessage.")
    /\ (forall err, in_frame h = true -> postMessage_throws h message = Some err ->
        posted s' = posted s
        /\ List.last (console_out s') (Log "")
           = Error [VStr "Failed to send message to parent:"; err]).
Proof.
  intros Hc message.
  destruct (sendToWebhook_spec data s Hc)
    as (s' & Hs' & Hq & Hcl & Hsent & Hpost & Hwarn & Hfail).
  exists s'. split; [exact Hs'|]. unfold delivered in Hpost. fold message in Hpost, Hfail.
  split; [|split].
  - intros Hf Hp. rewrite Hpost, Hf, Hp. reflexivity.
  - intros Hf. rewrite Hf in Hpost. rewrite app_nil_r in Hpost. split; [exact Hpost|].
    rewrite (Hwarn Hf).
    change [Log "Send to webhook"; Warn "Parent window not available for postMessage."]
      with ([Log "Send to webhook"] ++ [Warn "Parent window not available for postMessage."])%list.
    rewrite app_assoc. apply last_last.
  - intros err Hf Hp. rewrite Hf, Hp, app_nil_r in Hpost. split; [exact Hpost|].
    destruct (Hfail err Hf Hp) as (out & Hout). rewrite Hout, !app_assoc.
    apply last_last.
Qed.

(** *** The interceptor is never installed *)

Ltac setup :=
  unfold load_script, initEnhancedErrorMonitor, initialize, api_cleanup, cleanup,
    setupConsoleInterceptors, setupErrorHandlers, setupNextJsErrorObserver,
    observer_callback in *;
  run.

Lemma pristine_consistent s : pristine s -> consistent s.
Proof. intros (He & Ho & _). unfold consistent. rewrite Ho. exact He. Qed.

Lemma quiet_pristine s s' : quiet s s' -> pristine s -> pristine s'.
Proof.
  intros [Hw Hn] (He & Ho & Hh). destruct (Hn He) as [Hh' _].
  unfold window_of in Hw. injection Hw as _ He' _ _ _ _ _ Ho'.
  repeat split; congruence.
Qed.

Lemma handleConsoleError_quiet method message args s :
  consistent s -> quiet s (handleConsoleError h method message args s).2.
Proof.
  intros Hc. destruct (decide (method = "error")) as [->|Hne].
  - destruct (handleConsoleError_spec message args s Hc) as (s' & Hq & Hcase).
    destruct (locate h _ _).1, (serialize_args h args);
      destruct Hcase as (-> & _); exact Hq.
  - unfold handleConsoleError, handleConsoleError_enter. run.
    rewrite bool_decide_true by exact Hne.
    split; [reflexivity|]. intros _. split; reflexivity.
Qed.

Lemma checkDomErrors_quiet s :
  consistent s -> quiet s (checkDomErrors h s).2.
Proof.
  intros Hc. destruct (checkDomErrors_spec s Hc) as (s' & -> & Hq & _). exact Hq.
Qed.

Lemma sendErrorManually_quiet error s :
  consistent s -> quiet s (sendErrorManually h error s).2.
Proof.
  intros Hc. unfold sendErrorManually.
  destruct (extract_message h error); st.
  - apply handleConsoleError_quiet. exact Hc.
  - run. split; [reflexivity|]. intros _. split; reflexivity.
Qed.

Lemma load_script_pristine s : pristine s -> pristine (load_script s).2.
Proof.
  intros (He & Ho & Hh). setup.
  destruct (errorMonitorInitialized s); st; repeat split; assumption || reflexivity.
Qed.

Lemma api_cleanup_pristine s : pristine s -> pristine (api_cleanup s).2.
Proof.
  intros (He & Ho & Hh). setup.
  destruct (cleanupErrorMonitor s); st; [rewrite Ho; st|];
    repeat split; assumption || reflexivity.
Qed.

Lemma handleConsoleError_from_quiet method message args s :
  consistent s -> quiet s (handleConsoleError_from h method message args (clock s) s).2.
Proof.
  intros Hc.
  destruct (handleConsoleError_from_spec method message args s Hc) as (s' & Hq & Hcase).
  destruct (locate _ _ _).1, (serialize_args h args);
    destruct Hcase as (-> & _); exact Hq.
Qed.

Lemma checkDomErrors_from_quiet s :
  consistent s -> quiet s (checkDomErrors_from h (clock s) s).2.
Proof.
  intros Hc. destruct (checkDomErrors_from_spec s Hc) as (s' & -> & Hq & _). exact Hq.
Qed.

(** The rest of a flow, taken from the pending ones: what it leaves is
    what the flow leaves when it is run at the time it was suspended, but
    for the clock. *)
Lemma run_task_eq (t : task) s :
  exists s1,
    (run_task h t s).2 = set_clock (Z.max (clock s) (clock s1)) s1
    /\ match t with
       | HandleConsoleError method message args started =>
           s1 = (handleConsoleError_from h method message args started
                   (set_clock started s)).2
       | CheckDomErrors started =>
           s1 = (checkDomErrors_from h started (set_clock started s)).2
       end.
Proof.
  destruct t as [method message args started|started]; cbn [run_task]; unfold resume; run.
  - destruct (handleConsoleError_from h method message args started (set_clock started s))
      as [[v|e] s1]; exists s1; split; reflexivity.
  - destruct (checkDomErrors_from h started (set_clock started s))
      as [[v|e] s1]; exists s1; split; reflexivity.
Qed.

Lemma run_task_quiet (t : task) s : consistent s -> quiet s (run_task h t s).2.
Proof.
  intros Hc. destruct (run_task_eq t s) as (s1 & -> & Hs1).
  assert (Hq : quiet s s1).
  { destruct t as [method message args started|started]; subst s1.
    - exact (handleConsoleError_from_quiet method message args (set_clock started s) Hc).
    - exact (checkDomErrors_from_quiet (set_clock started s) Hc). }
  destruct Hq as [Hw Hn]. split; [exact Hw|exact Hn].
Qed.

Lemma sendErrorManually_called_eq error s :
  sendErrorManually_called h error s
  = match extract_message h error with
    | Ok message =>
        (Ok true,
         add_pending (HandleConsoleError "error" message [error] (clock s))
           (add_console_out (Log "Checking for Next.js errors in DOM")
              (add_console_out (Log "Handling error message:") s)))
    | Throw _ => (Ok false, add_console_out (Log "Failed to manually send error:") s)
    end.
Proof.
  unfold sendErrorManually_called. destruct (extract_message h error); reflexivity.
Qed.

Lemma step_pristine s s' : step h s s' -> pristine s -> pristine s'.
Proof.
  intros Hstep Hp. pose proof (pristine_consistent s Hp) as Hc.
  destruct Hstep.
  - apply load_script_pristine. exact Hp.
  - destruct (call_console_error_quiet args s Hc) as (s' & -> & Hq & _).
    exact (quiet_pristine _ _ Hq Hp).
  - rewrite sendErrorManually_called_eq. destruct (extract_message h error); exact Hp.
  - exact Hp.
  - apply api_cleanup_pristine. exact Hp.
  - assert (Hp' : pristine (set_pending (before ++ after)%list s)) by exact Hp.
    exact (quiet_pristine _ _ (run_task_quiet t _ (pristine_consistent _ Hp')) Hp').
  - setup. destruct (shouldCheck mutations); exact Hp.
  - unfold onerror_handler. run.
    destruct (String_ _ msg) as [str|e]; [|exact Hp].
    match goal with |- context [call_console_error h ?a ?s0] =>
      destruct (call_console_error_quiet a s0) as (s1 & -> & Hq & _);
        [exact Hc|exact (quiet_pristine _ _ Hq Hp)]
    end.
  - unfold onunhandledrejection_handler. run.
    destruct (String_ _ _) as [str|e]; [|exact Hp].
    match goal with |- context [call_console_error h ?a ?s0] =>
      destruct (call_console_error_quiet a s0) as (s1 & -> & Hq & _);
        [exact Hc|exact (quiet_pristine _ _ Hq Hp)]
    end.
  - exact Hp.
Qed.

Lemma reachable_pristine s : reachable h s -> pristine s.
Proof.
  intros [now Hsteps].
  assert (Hinv : forall a b, rtc (step h) a b -> pristine a -> pristine b).
  { intros a b Hab. induction Hab as [|s1 s2 s3 Hstep _ IH]; [trivial|].
    intros Hp. apply IH. exact (step_pristine _ _ Hstep Hp). }
  apply (Hinv _ _ Hsteps). repeat split.
Qed.

Lemma reachable_consistent s : reachable h s -> consistent s.
Proof. intros Hr. apply pristine_consistent, reachable_pristine, Hr. Qed.

(** C1 (the script departs from it).  A call of [console.error] on the
    page is never intercepted, so no flow is started for it and no event is
    sent, with or without an overlay in the document.  The flow itself, as
    [sendError] starts it and as the interceptor would, sends the DOM event
    and no console event when the scan locates a header, and the console
    event when it locates none and the arguments can be serialized; but
    when it locates none and an argument can be converted neither by
    [JSON.stringify] nor by [String], the fallback [String(arg)] of the
    [catch] throws in its turn: the flow rejects and sends no event at
    all, neither the DOM event nor the console event. *)
Theorem handleConsoleError_outcomes message args s :
  consistent s ->
  (reachable h s ->
   let called := call_console_error h args s in
   called.1 = Ok tt
   /\ sent called.2 = sent s /\ posted called.2 = posted s
   /\ pending called.2 = pending s)
  /\ (let found := locate h (document h (clock s)) (clock s) in
      let r := handleConsoleError h "error" message args s in
      (forall el, found.1 = Some el ->
         let report := DomEvent (serializeToString h el) (toISOString h found.2) in
         r.1 = Ok VUndefined
         /\ sent r.2 = (sent s ++ [report])%list
         /\ posted r.2 = (posted s ++ delivered h report)%list)
      /\ (forall serialized, found.1 = None -> serialize_args h args = Ok serialized ->
          let report := ConsoleEvent "error" message serialized false
                                     (toISOString h found.2) in
          r.1 = Ok VUndefined
          /\ sent r.2 = (sent s ++ [report])%list
          /\ posted r.2 = (posted s ++ delivered h report)%list)
      /\ (forall e, found.1 = None -> serialize_args h args = Throw e ->
          r.1 = Throw e
          /\ sent r.2 = sent s
          /\ posted r.2 = posted s)).
Proof.
  intros Hc. split.
  - intros Hr. destruct (reachable_pristine s Hr) as (He & _ & _).
    unfold call_console_error. rewrite He. repeat split.
  - intros found r.
    destruct (handleConsoleError_spec message args s Hc) as (s' & Hq & Hcase).
    fold found in Hcase. split; [|split].
    + intros el Hel. rewrite Hel in Hcase. destruct Hcase as (Hr & Hsent & Hpost).
      unfold r. rewrite Hr. split; [reflexivity|]. split; [exact Hsent|exact Hpost].
    + intros serialized Hnone Hser. rewrite Hnone, Hser in Hcase.
      destruct Hcase as (Hr & Hsent & Hpost).
      unfold r. rewrite Hr. split; [reflexivity|]. split; [exact Hsent|exact Hpost].
    + intros e Hnone Hser. rewrite Hnone, Hser in Hcase.
      destruct Hcase as (Hr & Hsent & Hpost).
      unfold r. rewrite Hr. split; [reflexivity|]. split; [exact Hsent|exact Hpost].
Qed.

(** C2 (the script departs from it): [initialize] sets [isInitialized]
    before it calls [setupConsoleInterceptors], which returns at once when
    the flag is set.  So in every state the page can reach, [console.error]
    is still the native function: a call, the first one included, starts no
    flow, sends nothing and writes no dedup hash. *)
Theorem console_error_never_intercepted args s :
  reachable h s ->
  console_error s = NativeError
  /\ lastErrorHash s = ""
  /\ call_console_error h args s = (Ok tt, add_console_out (Error args) s).
Proof.
  intros Hr. destruct (reachable_pristine s Hr) as (He & Ho & Hh).
  split; [exact He|]. split; [exact Hh|].
  unfold call_console_error. rewrite He. reflexivity.
Qed.

(** What the interceptor would do, were it installed: a call whose key is
    the stored hash starts nothing; another call stores its key and starts
    the flow with the formatted message. *)
Lemma interceptor_dedup args formatted s :
  originalConsole s = Some NativeError ->
  formatMessageWithPlaceholders (Number_toString_large h) (parseFloat_toString h)
    (nth 0 args VUndefined) (drop 1 args) = Ok formatted ->
  interceptor h args s
  = (Ok tt,
     if bool_decide (errorHash formatted = lastErrorHash s)
     then add_console_out (Error args) s
     else add_console_out (Error args)
            (add_pending (HandleConsoleError "error" (VStr formatted) args (clock s))
               (add_console_out (Log "Checking for Next.js errors in DOM")
                  (add_console_out (Log "Handling error message:")
                     (set_lastErrorHash (errorHash formatted) s))))).
Proof.
  intros Ho Hf. unfold interceptor. run. rewrite Hf. st.
  destruct (decide (errorHash formatted = lastErrorHash s)) as [Heq|Hne].
  - rewrite bool_decide_false by (intros Hn; apply Hn; exact Heq).
    rewrite bool_decide_true by exact Heq. st. rewrite Ho. reflexivity.
  - rewrite bool_decide_true by exact Hne.
    rewrite bool_decide_false by exact Hne. st.
    rewrite start_handleConsoleError_error. st. rewrite Ho. reflexivity.
Qed.


(** C6: after [cleanup()] on an initialized monitor, [console.error] is the
    native function again, the two global handlers are cleared, the observer
    is disconnected, and the instance is reset, so that [initialize] would
    run again; a later [console.error] call is a call of the native
    function: it starts no flow and sends nothing. *)
Theorem cleanup_restores args s :
  consistent s -> isInitialized s = true -> cleanupErrorMonitor s = true ->
  let s' := (api_cleanup s).2 in
  (api_cleanup s).1 = Ok tt
  /\ console_error s' = NativeError
  /\ onerror s' = false /\ onunhandledrejection s' = false
  /\ observing s' = false
  /\ isInitialized s' = false /\ originalConsole s' = None
  /\ (isInitialized (initialize s').2 = true
      /\ onerror (initialize s').2 = true
      /\ observing (initialize s').2 = true)
  /\ call_console_error h args s' = (Ok tt, add_console_out (Error args) s').
Proof.
  intros Hc Hi Hreg. unfold consistent in Hc. setup. rewrite Hreg. st.
  unfold call_console_error.
  destruct (originalConsole s) as [f|]; st.
  - subst f. repeat split; reflexivity.
  - rewrite Hc. repeat split; reflexivity.
Qed.


End Flows.

(** *** Concrete runs *)

Lemma loaded_reachable (h : host string) : reachable h (loaded h).
Proof.
  exists 0. eapply rtc_l; [apply step_load|].
  eapply rtc_l; [|apply rtc_refl].
  apply (step_task h (CheckDomErrors 0) [] []). reflexivity.
Qed.


Lemma waitForHeaderElement_bounded_witness :
  let h := with_late_timers 50 (markup_host true no_overlay) in
  let r := waitForHeaderElement h (fun _ => None) default_retries default_delay
             (initial 0) in
  0 <= default_retries /\ 0 <= default_delay
  /\ r.1 = Ok None
  /\ clock (initial 0) + default_retries * default_delay <= clock r.2.
Proof.
  intros h r.
  split; [vm_compute; discriminate|]. split; [vm_compute; discriminate|].
  destruct (waitForHeaderElement_bounded h (fun _ => None) default_retries default_delay
              (initial 0) ltac:(vm_compute; discriminate) ltac:(vm_compute; discriminate))
    as (header & Hr & _ & _ & _ & _ & Hheader & _ & _ & Hlower & _).
  cbn beta in Hheader. subst header.
  split; [exact Hr|exact (Hlower eq_refl)].
Defined.

(** C8, as it was stated, fails: with the default 10 retries the wait
    queries the shadow root 11 times when the header appears after two
    seconds, and resolves with the header that the eleventh query found
    (the timers of this host fire on time). *)
Lemma waitForHeaderElement_eleven_queries :
  let h := markup_host true no_overlay in
  let r := check h late_shadow default_delay default_retries 0 in
  length r.2 = 11%nat
  /\ r.1 = Some "<div>late</div>"
  /\ ~ (length r.2 <= 10)%nat.
Proof. vm_compute. repeat split. lia. Qed.

Lemma handleConsoleError_outcomes_witness :
  let h := markup_host true no_overlay in
  let args := [VStr "boom"; unserializable] in
  let called := call_console_error h args (loaded h) in
  let r := handleConsoleError h "error" (VStr "boom x") args (loaded h) in
  consistent (loaded h)
  /\ (sent called.2 = sent (loaded h) /\ pending called.2 = pending (loaded h))
  /\ r.1 = Throw (TypeError "Cannot convert object to primitive value")
  /\ sent r.2 = sent (loaded h).
Proof.
  intros h args called r. split; [evaluate|].
  destruct (handleConsoleError_outcomes h (VStr "boom x") args (loaded h) ltac:(evaluate))
    as (Hcall & _ & _ & Hthrow).
  destruct (Hcall (loaded_reachable h)) as (_ & Hsent & _ & Hpending).
  split; [split; [exact Hsent|exact Hpending]|].
  destruct (Hthrow (TypeError "Cannot convert object to primitive value")
              ltac:(evaluate) ltac:(evaluate)) as (Hr & Hnone & _).
  split; [exact Hr|exact Hnone].
Defined.

(** An argument that cannot be serialized, run in full:
    [console.error("boom", o)] with an argument [o] that has a message and
    can be converted neither by [JSON.stringify] nor by [String] has the
    formatted message "boom x"; with no overlay in the document, the flow
    for it throws while it serializes the arguments and sends no event at
    all.  The same happens on the other way into the flow,
    [sendError(o)]. *)
Lemma handleConsoleError_unserializable_argument :
  let h := markup_host true no_overlay in
  let args := [VStr "boom"; unserializable] in
  let r := handleConsoleError h "error" (VStr "boom x") args (loaded h) in
  let m := sendErrorManually h unserializable (loaded h) in
  formatMessageWithPlaceholders (Number_toString_large h) (parseFloat_toString h)
    (VStr "boom") [unserializable] = Ok "boom x"
  /\ document h 0 = []
  /\ sent (loaded h) = []
  /\ r.1 = Throw (TypeError "Cannot convert object to primitive value")
  /\ sent r.2 = []
  /\ posted r.2 = []
  /\ m.1 = Ok (ReturnedPromise
                 (Throw (TypeError "Cannot convert object to primitive value")))
  /\ sent m.2 = [].
Proof. vm_compute. repeat split. Qed.

Lemma checkDomErrors_reports_once_witness :
  let h := markup_host true one_overlay in
  consistent (loaded h)
  /\ exists s',
       checkDomErrors h (loaded h) = (Ok true, s')
       /\ sent s' = (sent (loaded h)
                     ++ [DomEvent "<div>Unhandled Runtime Error</div>" "0"])%list.
Proof.
  intros h. split; [evaluate|].
  destruct (checkDomErrors_reports_once h [] (loaded h) ltac:(evaluate))
    as (found & s' & Hr & _ & _ & Hlocated & _).
  destruct (Hlocated "<div>Unhandled Runtime Error</div>" ltac:(evaluate))
    as [-> Hsent].
  exists s'. split; [exact Hr|]. rewrite Hsent. evaluate.
Defined.

Lemma sendToWebhook_delivery_witness :
  let h := markup_host false no_overlay in
  consistent (loaded h)
  /\ exists s', sendToWebhook h (DomEvent "<div/>" "0") (loaded h) = (Ok tt, s')
                /\ posted s' = posted (loaded h).
Proof.
  intros h. split; [evaluate|].
  destruct (sendToWebhook_delivery h (DomEvent "<div/>" "0") (loaded h)
              ltac:(evaluate)) as (s' & Hr & _ & Hskip & _).
  exists s'. split; [exact Hr|]. exact (proj1 (Hskip eq_refl)).
Defined.

Lemma console_error_never_intercepted_witness :
  let h := markup_host true no_overlay in
  reachable h (loaded h)
  /\ (let s' := (call_console_error h [VStr "boom"] (loaded h)).2 in
      pending s' = [] /\ sent s' = [] /\ posted s' = [] /\ lastErrorHash s' = "").
Proof.
  intros h. split; [apply loaded_reachable|].
  destruct (console_error_never_intercepted h [VStr "boom"] (loaded h)
              (loaded_reachable h)) as (_ & _ & Hcall).
  rewrite Hcall. repeat split.
Defined.



Lemma cleanup_restores_witness :
  let h := markup_host true no_overlay in
  let s := loaded h in
  consistent s /\ isInitialized s = true /\ cleanupErrorMonitor s = true
  /\ console_error (api_cleanup s).2 = NativeError
  /\ observing (api_cleanup s).2 = false.
Proof.
  intros h s. split; [evaluate|].
  assert (Hi : isInitialized s = true) by evaluate.
  assert (Hreg : cleanupErrorMonitor s = true) by evaluate.
  split; [exact Hi|]. split; [exact Hreg|].
  destruct (cleanup_restores h [] s ltac:(evaluate) Hi Hreg)
    as (_ & He & _ & _ & Hobs & _).
  split; [exact He|exact Hobs].
Defined.


End MonitorFacts.

(** ** The injector *)

Module InjectorFacts.
Import Injector.
Local Open Scope list_scope.

Ltac irun :=
  unfold Injector.console_log, Injector.console_error, existsSync, process_exit in *;
  unfold Injector.bind, Injector.ret, Injector.throw, Injector.try_catch in *;
  cbn [fst snd files output negb] in *.

Section Script.

Variable __dirname : path.
Variable errorMonitorScript : string.

Local Abbreviation d := __dirname.
Local Abbreviation app := (appPath __dirname).

Lemma lookup_node_app (fs : filesystem) (l : path) (x : string) (l' : path) :
  lookup_node fs (l ++ x :: l') = fs !! (l ++ x :: l').
Proof. destruct l; reflexivity. Qed.

Lemma length_dirname (p : path) : length (dirname p) = (length p - 1)%nat.
Proof.
  unfold dirname. induction p as [|x p IH]; [reflexivity|].
  destruct p as [|y p]; [reflexivity|].
  change (removelast (x :: y :: p)) with (x :: removelast (y :: p)).
  cbn [length] in *. lia.
Qed.

Lemma dirname_snoc (p : path) (x : string) : dirname (p ++ [x]) = p.
Proof. apply removelast_last. Qed.

Lemma publicDir_eq : publicDir d = (app ++ ["public"])%list.
Proof.
  unfold publicDir, appErrorMonitorPath.
  change ["public"; "error-monitor.js"] with (["public"] ++ ["error-monitor.js"])%list.
  rewrite app_assoc. apply dirname_snoc.
Qed.

Lemma length_appPath : (length d + 2 <= length app)%nat.
Proof.
  unfold appPath. rewrite length_app, length_dirname. cbn [length]. lia.
Qed.

Lemma writeFileSync_ok p content pr :
  is_dir (files pr) (dirname p) = true -> is_dir (files pr) p = false ->
  writeFileSync p content pr
  = (Returned tt, Process (<[p := File content]> (files pr)) (output pr)).
Proof. intros Hd Hp. unfold writeFileSync. rewrite Hd, Hp. reflexivity. Qed.

Lemma inject_missing_app pr :
  lookup_node (files pr) app = None ->
  exit_code d errorMonitorScript pr = 1.
Proof.
  intros Habsent. unfold exit_code, inject. irun.
  destruct (writeFileSync (errorMonitorPath d) errorMonitorScript pr)
    as [[[]|e|c] pr1] eqn:Hw; cbn [fst snd files output]; try reflexivity.
  - assert (Hfs : lookup_node (files pr1) app = None).
    { unfold writeFileSync in Hw.
      destruct (negb _); [discriminate|]. destruct (is_dir _ _); [discriminate|].
      injection Hw as <-. cbn [files].
      assert (Hne : errorMonitorPath d <> app).
      { intros Heq. apply (f_equal length) in Heq.
        pose proof length_appPath. unfold errorMonitorPath in Heq.
        rewrite length_app in Heq. cbn [length] in Heq. lia. }
      unfold appPath in *. rewrite lookup_node_app in *.
      rewrite lookup_insert_ne; [exact Habsent|exact Hne]. }
    rewrite Hfs. rewrite bool_decide_false by (intros [x Hx]; discriminate).
    reflexivity.
  - unfold writeFileSync in Hw.
    destruct (negb _); [discriminate|]. destruct (is_dir _ _); discriminate.
Qed.

Lemma is_dir_insert_ne (fs : filesystem) (p q : path) (n : node) :
  p <> q -> q <> [] -> is_dir (<[p := n]> fs) q = is_dir fs q.
Proof.
  intros Hne Hq. unfold is_dir, lookup_node. destruct q as [|x q]; [contradiction Hq; reflexivity|].
  rewrite lookup_insert_ne by exact Hne. reflexivity.
Qed.

Lemma lookup_node_insert_ne (fs : filesystem) (p q : path) (n : node) :
  p <> q -> q <> [] -> lookup_node (<[p := n]> fs) q = lookup_node fs q.
Proof.
  intros Hne Hq. unfold lookup_node. destruct q as [|x q]; [contradiction Hq; reflexivity|].
  rewrite lookup_insert_ne by exact Hne. reflexivity.
Qed.

Lemma lookup_node_insert (fs : filesystem) (p : path) (n : node) :
  p <> [] -> lookup_node (<[p := n]> fs) p = Some n.
Proof.
  intros Hp. unfold lookup_node. destruct p as [|x p]; [contradiction Hp; reflexivity|].
  apply lookup_insert_eq.
Qed.

Ltac ne := solve [assumption | apply not_eq_sym; assumption].

Ltac by_length :=
  let Heq := fresh in
  intros Heq; apply (f_equal length) in Heq;
  pose proof length_appPath;
  unfold errorMonitorPath, appErrorMonitorPath, layoutPath in Heq;
  rewrite ?publicDir_eq in Heq;
  rewrite ?length_app in Heq; cbn [length] in Heq; lia.

Lemma inject_without_layout pr :
  is_dir (files pr) d = true ->
  is_dir (files pr) (errorMonitorPath d) = false ->
  is_dir (files pr) app = true ->
  is_file (files pr) (publicDir d) = false ->
  is_dir (files pr) (appErrorMonitorPath d) = false ->
  lookup_node (files pr) (layoutPath d) = None ->
  let r := inject d errorMonitorScript pr in
  r.1 = Returned tt
  /\ lookup_node (files r.2) (layoutPath d) = None
  /\ lookup_node (files r.2) (appErrorMonitorPath d) = Some (File errorMonitorScript)
  /\ In (Out "layout.tsx not found at:") (output r.2).
Proof.
  intros Hd Hemp Happ Hpub Haemp Hlayout.
  assert (Ne1 : errorMonitorPath d <> app) by by_length.
  assert (Ne2 : errorMonitorPath d <> publicDir d) by by_length.
  assert (Ne3 : errorMonitorPath d <> appErrorMonitorPath d) by by_length.
  assert (Ne4 : errorMonitorPath d <> layoutPath d) by by_length.
  assert (Ne5 : publicDir d <> appErrorMonitorPath d) by by_length.
  assert (Ne6 : publicDir d <> layoutPath d) by by_length.
  assert (Ne7 : appErrorMonitorPath d <> layoutPath d).
  { unfold appErrorMonitorPath, layoutPath. intros Heq.
    apply app_inv_head in Heq. discriminate. }
  assert (Nn1 : app <> []) by by_length.
  assert (Nn2 : publicDir d <> []) by by_length.
  assert (Nn3 : appErrorMonitorPath d <> []) by by_length.
  assert (Nn4 : layoutPath d <> []) by by_length.
  assert (Nn5 : errorMonitorPath d <> []) by by_length.
  intros r. unfold r, inject. irun.
  rewrite writeFileSync_ok; [|unfold errorMonitorPath; rewrite dirname_snoc; exact Hd|exact Hemp].
  cbn [fst snd files output].
  set (fs1 := <[errorMonitorPath d := File errorMonitorScript]> (files pr)).
  assert (Happ1 : lookup_node fs1 app = Some Dir).
  { unfold fs1. rewrite lookup_node_insert_ne by ne.
    unfold is_dir in Happ. destruct (lookup_node (files pr) app) as [[]|]; congruence. }
  rewrite Happ1. rewrite bool_decide_true by eauto. cbn [negb fst snd files output].
  (* the public directory *)
  assert (Hpub2 : exists fs2,
    (if negb (bool_decide (is_Some (lookup_node fs1 (publicDir d))))
     then mkdirSync_recursive (publicDir d) else Injector.ret ())
      (Process fs1 (output pr ++ [Out "error-monitor.js created successfully"]))
    = (Returned tt, Process fs2 (output pr ++ [Out "error-monitor.js created successfully"]))
    /\ is_dir fs2 (publicDir d) = true
    /\ lookup_node fs2 (errorMonitorPath d) = Some (File errorMonitorScript)
    /\ is_dir fs2 (appErrorMonitorPath d) = false
    /\ lookup_node fs2 (layoutPath d) = None).
  { assert (Hl1 : lookup_node fs1 (layoutPath d) = None)
      by (unfold fs1; rewrite lookup_node_insert_ne by ne; exact Hlayout).
    assert (Ha1 : is_dir fs1 (appErrorMonitorPath d) = false)
      by (unfold fs1; rewrite is_dir_insert_ne by ne; exact Haemp).
    assert (He1 : lookup_node fs1 (errorMonitorPath d) = Some (File errorMonitorScript))
      by (unfold fs1; apply lookup_node_insert; assumption).
    assert (Hp1 : lookup_node fs1 (publicDir d) = lookup_node (files pr) (publicDir d))
      by (unfold fs1; apply lookup_node_insert_ne; assumption).
    unfold is_file in Hpub. rewrite <- Hp1 in Hpub.
    destruct (lookup_node fs1 (publicDir d)) as [[c|]|] eqn:Hp; [discriminate| |].
    - rewrite bool_decide_true by eauto. cbn [negb]. exists fs1.
      split; [reflexivity|]. unfold is_dir at 1. rewrite Hp. auto.
    - rewrite bool_decide_false by (intros [x Hx]; discriminate). cbn [negb].
      exists (<[publicDir d := Dir]> fs1).
      split.
      { unfold mkdirSync_recursive. cbn [files output].
        rewrite publicDir_eq in *. rewrite rev_unit. cbn [mkdir_parents].
        change ("public" :: rev app) with (rev [ "public" ] ++ rev app).
        rewrite <- rev_app_distr, rev_involutive. rewrite Hp.
        destruct (rev app) as [|x ra] eqn:Hra.
        { apply (f_equal (@rev string)) in Hra. rewrite rev_involutive in Hra.
          contradiction Nn1. }
        cbn [mkdir_parents]. rewrite <- Hra, rev_involutive, Happ1. reflexivity. }
      unfold is_dir at 1. rewrite lookup_node_insert by ne.
      rewrite !lookup_node_insert_ne by ne.
      rewrite is_dir_insert_ne by ne. auto. }
  destruct Hpub2 as (fs2 & Hrun & Hp2 & He2 & Ha2 & Hl2).
  unfold Injector.ret in Hrun. rewrite Hrun. clear Hrun.
  cbn [fst snd files output].
  unfold copyFileSync. cbn [files]. rewrite He2.
  rewrite writeFileSync_ok; cbn [files output];
    [|unfold publicDir in Hp2; exact Hp2|exact Ha2].
  cbn [fst snd files output].
  rewrite lookup_node_insert_ne by ne. rewrite Hl2.
  rewrite bool_decide_false by (intros [x Hx]; discriminate).
  cbn [fst snd files output].
  split; [reflexivity|].
  split; [rewrite lookup_node_insert_ne by ne; exact Hl2|].
  split; [apply lookup_node_insert; assumption|].
  rewrite !in_app_iff. cbn. tauto.
Qed.

(** C9 (amended): the injector exits with code 1 when the target
    application directory is absent.  When that directory exists, the
    layout file is absent, and the monitor script can be written next to
    the injector and copied into the public directory of the application
    (the directory of the injector exists, [public] is no regular file, and
    no directory stands where a copy goes), the injector writes the
    warning, leaves the layout alone and runs to its end, so that the exit
    code is 0. *)
Theorem inject_exit_code pr :
  (lookup_node (files pr) app = None -> exit_code d errorMonitorScript pr = 1)
  /\ (is_dir (files pr) d = true ->
      is_dir (files pr) (errorMonitorPath d) = false ->
      is_dir (files pr) app = true ->
      is_file (files pr) (publicDir d) = false ->
      is_dir (files pr) (appErrorMonitorPath d) = false ->
      lookup_node (files pr) (layoutPath d) = None ->
      exit_code d errorMonitorScript pr = 0
      /\ In (Out "layout.tsx not found at:")
            (output (inject d errorMonitorScript pr).2)
      /\ lookup_node (files (inject d errorMonitorScript pr).2) (layoutPath d) = None).
Proof.
  split; [apply inject_missing_app|].
  intros Hd Hemp Happ Hpub Haemp Hlayout.
  destruct (inject_without_layout pr Hd Hemp Happ Hpub Haemp Hlayout)
    as (Hr & Hl & _ & Hout).
  unfold exit_code. rewrite Hr. auto.
Qed.

End Script.

Lemma inject_exit_code_witness :
  lookup_node (files (Process ∅ [])) (appPath tool_dir) = None
  /\ exit_code tool_dir "monitor" (Process ∅ []) = 1
  /\ exit_code tool_dir "monitor" (Process app_without_layout []) = 0.
Proof.
  split; [reflexivity|]. split.
  - apply (proj1 (inject_exit_code tool_dir "monitor" (Process ∅ []))). reflexivity.
  - apply (proj2 (inject_exit_code tool_dir "monitor" (Process app_without_layout [])));
      vm_compute; reflexivity.
Defined.

(** C9, as it was stated, fails: the target directory exists and has no
    layout file, but [public] is a regular file in it, so the copy throws
    and the injector exits with code 1. *)
Lemma inject_public_is_a_file :
  let pr := Process app_with_public_file [] in
  is_dir (files pr) (appPath tool_dir) = true
  /\ lookup_node (files pr) (layoutPath tool_dir) = None
  /\ exit_code tool_dir "monitor" pr = 1
  /\ output (inject tool_dir "monitor" pr).2
     = [Out "error-monitor.js created successfully"; Err "Error in inject.js:"].
Proof. vm_compute. repeat split. Qed.

End InjectorFacts.

(** ** The formatter, further *)

Module FormatterFacts.
Import JS.

Section Host.
Variable Number_toString_large : Z -> string.
Variable parseFloat_toString : string -> string.
Local Abbreviation format := (formatMessageWithPlaceholders Number_toString_large parseFloat_toString).
Local Abbreviation replace := (replace_placeholders Number_toString_large parseFloat_toString).
Local Abbreviation rest_arg := (remaining_arg Number_toString_large).

Lemma replace_without_percent (t : string) args i :
  mentions "%" t = false -> replace t args i = Ok (t, i).
Proof.
  induction t as [|c t IH]; intros Hm; [reflexivity|].
  cbn [mentions] in Hm. apply orb_false_iff in Hm as [Hc Ht].
  cbn [replace_placeholders]. destruct t as [|type t']; [reflexivity|].
  rewrite bool_decide_false.
  - cbn [andb]. rewrite (IH Ht). reflexivity.
  - intros ->. discriminate.
Qed.

Lemma omap_remaining_strings (ss : list string) :
  omap rest_arg (map VStr ss) = Ok (map VStr ss).
Proof.
  induction ss as [|x ss IH]; [reflexivity|].
  cbn [map omap]. unfold remaining_arg at 1. cbn. rewrite IH. reflexivity.
Qed.

Lemma Array_join_strings sep (ss : list string) :
  Array_join Number_toString_large sep (map VStr ss) = Ok (join sep ss).
Proof.
  unfold Array_join.
  assert (H : omap (fun v => if is_nullish v then Ok "" else ToString Number_toString_large v)
                (map VStr ss) = Ok ss).
  { induction ss as [|x ss IH]; [reflexivity|]. cbn [map omap]. cbn. rewrite IH. reflexivity. }
  rewrite H. reflexivity.
Qed.

(** X1: A string template without a percent sign is returned as it is; string
    arguments are appended to it, each after a space, and none throws. *)
Theorem format_without_percent (t : string) (ss : list string) :
  mentions "%" t = false ->
  format (VStr t) (map VStr ss)
  = Ok (match ss with [] => t | _ => t +:+ " " +:+ join " " ss end).
Proof.
  intros Hm. unfold formatMessageWithPlaceholders.
  rewrite (replace_without_percent t _ 0%nat Hm). cbn [obind]. rewrite drop_0.
  rewrite omap_remaining_strings. cbn [obind]. rewrite length_map.
  destruct ss as [|x ss]; [reflexivity|].
  cbn [length Nat.ltb Nat.leb]. rewrite Array_join_strings. reflexivity.
Qed.

Lemma ToString_plain v : plain v = true -> exists str, ToString Number_toString_large v = Ok str.
Proof. destruct v as [| |[]| | | | |]; try discriminate; intros _; eexists; reflexivity. Qed.

Lemma String_plain v : plain v = true -> exists str, String_ Number_toString_large v = Ok str.
Proof. destruct v as [| |[]| | | | |]; try discriminate; intros _; eexists; reflexivity. Qed.

Lemma substitute_plain type v :
  plain v = true ->
  exists str, substitute Number_toString_large parseFloat_toString type v = Ok str.
Proof.
  intros Hp. unfold substitute, parseInt.
  destruct (String_plain v Hp) as [s1 Hs1]. destruct (ToString_plain v Hp) as [s2 Hs2].
  rewrite Hs1, Hs2. cbn [obind].
  destruct (JSON_stringify Number_toString_large v) as [o|e];
    repeat match goal with |- context [bool_decide ?P] => destruct (bool_decide P) end;
    cbn [orb obind ocatch]; eexists; reflexivity.
Qed.

Lemma nth_plain (args : list value) i :
  forallb plain args = true -> plain (nth i args VUndefined) = true.
Proof.
  revert i. induction args as [|a args IH]; intros [|i] H; try reflexivity;
    cbn [forallb] in H; apply andb_true_iff in H as [Ha Hr]; [exact Ha|apply IH, Hr].
Qed.

Lemma replace_plain args :
  forallb plain args = true ->
  forall t i, exists out j, replace t args i = Ok (out, j).
Proof.
  intros Hargs.
  assert (H : forall t, (forall i, exists out j, replace t args i = Ok (out, j))
                        /\ (forall c i, exists out j, replace (String c t) args i = Ok (out, j))).
  { induction t as [|type t [IHt IHc]].
    - split; [intros i; eexists _, _; reflexivity|intros c i; eexists _, _; reflexivity].
    - assert (Hhere : forall c i, exists out j, replace (String c (String type t)) args i = Ok (out, j)).
      { intros c i. cbn [replace_placeholders].
        destruct (bool_decide (c = "%"%char) && is_placeholder type).
        - destruct (substitute_plain type _ (nth_plain args i Hargs)) as [r Hr].
          rewrite Hr. cbn [obind].
          destruct (IHt (S i)) as (out & j & Ho). rewrite Ho. eexists _, _; reflexivity.
        - destruct (IHc type i) as (out & j & Ho).
          cbn [replace_placeholders] in Ho. rewrite Ho. eexists _, _; reflexivity. }
      split; [intros i; apply IHc|exact Hhere]. }
  intros t. apply H.
Qed.

Lemma remaining_plain v :
  plain v = true -> exists str, rest_arg v = Ok (VStr str).
Proof.
  destruct v as [| |[]| | | | |]; try discriminate; intros _; eexists; reflexivity.
Qed.

Lemma omap_remaining_plain (args : list value) :
  forallb plain args = true -> exists ss, omap rest_arg args = Ok (map VStr ss).
Proof.
  induction args as [|a args IH]; intros H; [exists []; reflexivity|].
  cbn [forallb] in H. apply andb_true_iff in H as [Ha Hr].
  destruct (remaining_plain a Ha) as [str Hs]. destruct (IH Hr) as [ss Hss].
  exists (str :: ss). cbn [omap map]. rewrite Hs, Hss. reflexivity.
Qed.

Lemma forallb_plain_drop (args : list value) i :
  forallb plain args = true -> forallb plain (drop i args) = true.
Proof.
  revert i. induction args as [|a args IH]; intros [|i] H; try exact H.
  cbn [forallb] in H. apply andb_true_iff in H as [_ Hr]. apply IH, Hr.
Qed.

Lemma omap_String_plain (args : list value) :
  forallb plain args = true ->
  exists ss, omap (String_ Number_toString_large) args = Ok ss.
Proof.
  induction args as [|a args IH]; intros H; [exists []; reflexivity|].
  cbn [forallb] in H. apply andb_true_iff in H as [Ha Hr].
  destruct (String_plain a Ha) as [str Hs]. destruct (IH Hr) as [ss Hss].
  exists (str :: ss). cbn [omap]. rewrite Hs, Hss. reflexivity.
Qed.

(** X2: The formatter returns a string (it does not throw) when the template
    and the arguments are primitive values other than symbols, whatever the
    placeholders of the template. *)
Theorem format_plain_arguments template args :
  plain template = true -> forallb plain args = true ->
  exists formatted, format template args = Ok formatted.
Proof.
  intros Ht Hargs.
  assert (Hother : exists formatted,
             (ss <- omap (String_ Number_toString_large) (template :: args) ;;
              Ok (join " " ss))%outcome = Ok formatted).
  { destruct (omap_String_plain (template :: args)) as [ss Hss].
    - cbn [forallb]. rewrite Ht. exact Hargs.
    - rewrite Hss. eexists; reflexivity. }
  destruct template; try exact Hother. clear Hother.
  unfold formatMessageWithPlaceholders.
  destruct (replace_plain args Hargs s 0%nat) as (out & j & Hr). rewrite Hr. cbn [obind].
  destruct (omap_remaining_plain (drop j args) (forallb_plain_drop args j Hargs)) as [ss Hss].
  rewrite Hss. cbn [obind]. destruct (0 <? length (map VStr ss))%nat; [|eexists; reflexivity].
  rewrite Array_join_strings. eexists; reflexivity.
Qed.

Lemma append_nil_l (t : string) : "" +:+ t = t.
Proof. reflexivity. Qed.

Lemma append_cons c (s t : string) : String c s +:+ t = String c (s +:+ t).
Proof. reflexivity. Qed.

Lemma append_nil_r (s : string) : s +:+ "" = s.
Proof. induction s as [|c s IH]; [reflexivity|]. rewrite append_cons, IH. reflexivity. Qed.

Lemma append_assoc (x y z : string) : (x +:+ y) +:+ z = x +:+ y +:+ z.
Proof.
  induction x as [|c x IH]; [reflexivity|]. rewrite !append_cons, IH. reflexivity.
Qed.

Lemma replace_after_text (pre t : string) args i :
  mentions "%" pre = false ->
  replace (pre +:+ t) args i
  = (let* (out, j) := replace t args i in Ok (pre +:+ out, j))%outcome.
Proof.
  induction pre as [|c pre IH]; intros Hm.
  - rewrite append_nil_l. destruct (replace t args i) as [[out j]|e]; reflexivity.
  - cbn [mentions] in Hm. apply orb_false_iff in Hm as [Hc Hp].
    specialize (IH Hp). rewrite append_cons.
    assert (Hne : c <> "%"%char) by (intros ->; discriminate).
    cbn [replace_placeholders].
    destruct (pre +:+ t) as [|type rest] eqn:Hrest.
    + destruct pre; [|discriminate]. rewrite append_nil_l in Hrest. subst t. reflexivity.
    + rewrite bool_decide_false by exact Hne. cbn [andb].
      rewrite IH. destruct (replace t args i) as [[out j]|e]; reflexivity.
Qed.

(** X3: In a template that has [%s] once and no other percent sign, the
    placeholder is replaced by the first argument, and the remaining string
    arguments are appended, each after a space. *)
Theorem format_percent_s (pre post a : string) (ss : list string) :
  mentions "%" pre = false -> mentions "%" post = false ->
  format (VStr (pre +:+ "%s" +:+ post)) (VStr a :: map VStr ss)
  = Ok (pre +:+ a +:+ post
        +:+ match ss with [] => "" | _ => " " +:+ join " " ss end).
Proof.
  intros Hpre Hpost. unfold formatMessageWithPlaceholders.
  rewrite (replace_after_text pre _ _ 0%nat Hpre).
  rewrite !append_cons, append_nil_l. cbn [replace_placeholders].
  rewrite bool_decide_true by reflexivity.
  change (is_placeholder "s") with true. cbn [andb nth].
  change (substitute Number_toString_large parseFloat_toString "s" (VStr a)) with (Ok a : JS.result string).
  cbn [obind]. rewrite (replace_without_percent post _ 1%nat Hpost). cbn [obind].
  change (drop 1 (VStr a :: map VStr ss)) with (map VStr ss).
  rewrite omap_remaining_strings. cbn [obind]. rewrite length_map.
  destruct ss as [|x ss].
  - cbn [length Nat.ltb Nat.leb]. rewrite append_nil_r. reflexivity.
  - cbn [length Nat.ltb Nat.leb]. rewrite Array_join_strings. cbn [obind].
    rewrite ?append_assoc. reflexivity.
Qed.
End Host.

Lemma format_without_percent_witness :
  mentions "%" "Failed to load" = false
  /\ formatMessageWithPlaceholders (fun z => pretty z) (fun s => s)
       (VStr "Failed to load") (map VStr ["chunk"; "42"])
     = Ok "Failed to load chunk 42".
Proof.
  split; [reflexivity|].
  rewrite (format_without_percent (fun z => pretty z) (fun s => s) "Failed to load"
             ["chunk"; "42"] eq_refl).
  reflexivity.
Defined.

Lemma format_plain_arguments_witness :
  exists formatted,
    formatMessageWithPlaceholders (fun z => pretty z) (fun s => s)
      (VStr "%d items: %o") [VNum (Int 3); VNull] = Ok formatted.
Proof.
  exact (format_plain_arguments (fun z => pretty z) (fun s => s)
           (VStr "%d items: %o") [VNum (Int 3); VNull] eq_refl eq_refl).
Defined.

Lemma format_percent_s_witness :
  formatMessageWithPlaceholders (fun z => pretty z) (fun s => s)
    (VStr ("Value: " +:+ "%s" +:+ ", done")) (VStr "foo" :: map VStr ["x"])
  = Ok "Value: foo, done x".
Proof.
  rewrite (format_percent_s (fun z => pretty z) (fun s => s) "Value: " ", done" "foo" ["x"]
             eq_refl eq_refl).
  reflexivity.
Defined.

End FormatterFacts.

(** ** The monitor, further *)

Module ReportingFacts.
Import JS Monitor MonitorFacts.


Ltac install :=
  unfold load_script, initEnhancedErrorMonitor, initialize, api_cleanup, cleanup,
    setupConsoleInterceptors, setupErrorHandlers, setupNextJsErrorObserver in *;
  run.
Lemma substring_whole (m : nat) (s : string) :
  (String.length s <= m)%nat -> substring 0 m s = s.
Proof.
  revert m. induction s as [|c s IH]; intros [|m] Hl; try reflexivity.
  - cbn in Hl. lia.
  - cbn [substring]. rewrite IH; [reflexivity|]. cbn in Hl. lia.
Qed.

Lemma length_substring (m : nat) (s : string) :
  String.length (substring 0 m s) = Nat.min m (String.length s).
Proof.
  revert m. induction s as [|c s IH]; intros [|m]; try reflexivity.
  cbn [substring String.length]. rewrite IH. reflexivity.
Qed.

Lemma errorHash_short_messages (f1 f2 : string) :
  (String.length f1 < 100)%nat ->
  errorHash f1 = errorHash f2 ->
  f1 = f2.
Proof.
  intros Hshort Hk. unfold errorHash in Hk.
  assert (Hsub : substring 0 100 f1 = substring 0 100 f2).
  { change ("console-error-" +:+ substring 0 100 f1)
      with (String "c" ("onsole-error-" +:+ substring 0 100 f1)) in Hk.
    apply (String.app_inj "console-error-"). exact Hk. }
  rewrite (substring_whole 100 f1) in Hsub by lia.
  pose proof (length_substring 100 f2) as Hlen. rewrite <- Hsub in Hlen.
  rewrite <- (substring_whole 100 f2) by lia. exact Hsub.
Qed.

Section Flows.
Context {Element : Type} (h : host Element).

Local Abbreviation format_args args :=
  (formatMessageWithPlaceholders (Number_toString_large h) (parseFloat_toString h)
     (nth 0 args VUndefined) (drop 1 args)).

(** X4: The function that [setupConsoleInterceptors] assigns to
    [console.error], run while the native function is saved, never throws
    and always ends with one call of the original [console.error] on its
    arguments; it sends nothing itself.  Before that call it writes the two
    lines with which the flow it starts begins, when the call is no
    duplicate; nothing, when the call is a duplicate; and when formatting
    the arguments throws it logs that and starts no flow. *)
Theorem interceptor_calls_original args s :
  originalConsole s = Some NativeError ->
  exists s' out,
    interceptor h args s = (Ok tt, s')
    /\ console_out s' = (console_out s ++ out ++ [Error args])%list
    /\ sent s' = sent s /\ posted s' = posted s
    /\ (forall formatted, format_args args = Ok formatted ->
        out = if bool_decide (errorHash formatted = lastErrorHash s) then []
              else [Log "Handling error message:";
                    Log "Checking for Next.js errors in DOM"])
    /\ (forall e, format_args args = Throw e ->
        out = [Log "Error in console error interceptor:"]
        /\ pending s' = pending s /\ lastErrorHash s' = lastErrorHash s).
Proof.
  intros Ho. destruct (format_args args) as [formatted|e] eqn:Hf.
  - rewrite (interceptor_dedup h args formatted s Ho Hf).
    destruct (bool_decide (errorHash formatted = lastErrorHash s)) eqn:Hd.
    + eexists _, []. split; [reflexivity|]. st.
      split; [reflexivity|]. split; [reflexivity|]. split; [reflexivity|].
      split; [intros f [= <-]; rewrite Hd; reflexivity|intros; discriminate].
    + eexists _, [Log "Handling error message:"; Log "Checking for Next.js errors in DOM"].
      split; [reflexivity|]. st.
      split; [rewrite <- !app_assoc; reflexivity|].
      split; [reflexivity|]. split; [reflexivity|].
      split; [intros f [= <-]; rewrite Hd; reflexivity|intros; discriminate].
  - unfold interceptor. run. rewrite Hf. st. rewrite Ho.
    eexists _, [Log "Error in console error interceptor:"].
    split; [reflexivity|]. st. split; [rewrite <- app_assoc; reflexivity|].
    split; [reflexivity|]. split; [reflexivity|].
    split; [intros; discriminate|]. intros e' _. repeat split.
Qed.

(** X5: The dedup key of the interceptor reads the first hundred characters
    of the formatted message only: of two calls in a row whose formatted
    messages agree on these, the second starts no flow, whatever follows
    them in the messages. *)
Theorem interceptor_dedups_on_prefix args1 args2 f1 f2 s :
  originalConsole s = Some NativeError ->
  format_args args1 = Ok f1 -> format_args args2 = Ok f2 ->
  substring 0 100 f1 = substring 0 100 f2 ->
  let s1 := (interceptor h args1 s).2 in
  let s2 := (interceptor h args2 s1).2 in
  lastErrorHash s1 = errorHash f1
  /\ pending s2 = pending s1
  /\ lastErrorHash s2 = lastErrorHash s1
  /\ sent s2 = sent s /\ posted s2 = posted s.
Proof.
  intros Ho Hf1 Hf2 Hpre s1 s2.
  assert (Hk : errorHash f2 = errorHash f1) by (unfold errorHash; rewrite Hpre; reflexivity).
  assert (H1 : lastErrorHash s1 = errorHash f1 /\ originalConsole s1 = Some NativeError
               /\ sent s1 = sent s /\ posted s1 = posted s).
  { unfold s1. rewrite (interceptor_dedup h args1 f1 s Ho Hf1).
    destruct (decide (errorHash f1 = lastErrorHash s)) as [Heq|Hne].
    - rewrite bool_decide_true by exact Heq. st. auto.
    - rewrite bool_decide_false by exact Hne. st. auto. }
  destruct H1 as (Hh1 & Ho1 & Hs1 & Hp1).
  split; [exact Hh1|].
  unfold s2. rewrite (interceptor_dedup h args2 f2 s1 Ho1 Hf2).
  rewrite bool_decide_true by congruence. st. auto.
Qed.


(** X6: Of two calls of the interceptor in a row whose formatted messages
    differ, the first of them shorter than a hundred characters, the second
    is not taken for a duplicate: it starts the flow for its own message
    and stores its own key. *)
Theorem interceptor_reports_distinct args1 args2 f1 f2 s :
  originalConsole s = Some NativeError ->
  format_args args1 = Ok f1 -> format_args args2 = Ok f2 ->
  (String.length f1 < 100)%nat ->
  f1 <> f2 ->
  let s1 := (interceptor h args1 s).2 in
  let s2 := (interceptor h args2 s1).2 in
  pending s2 = (pending s1 ++ [HandleConsoleError "error" (VStr f2) args2 (clock s1)])%list
  /\ lastErrorHash s2 = errorHash f2.
Proof.
  intros Ho Hf1 Hf2 Hshort Hne s1 s2.
  assert (H1 : lastErrorHash s1 = errorHash f1 /\ originalConsole s1 = Some NativeError).
  { unfold s1. rewrite (interceptor_dedup h args1 f1 s Ho Hf1).
    destruct (decide (errorHash f1 = lastErrorHash s)) as [Heq|Hn].
    - rewrite bool_decide_true by exact Heq. st. auto.
    - rewrite bool_decide_false by exact Hn. st. auto. }
  destruct H1 as [Hh1 Ho1].
  unfold s2. rewrite (interceptor_dedup h args2 f2 s1 Ho1 Hf2).
  rewrite bool_decide_false.
  - st. split; reflexivity.
  - rewrite Hh1. intros Hk. apply Hne. symmetry in Hk.
    exact (errorHash_short_messages f1 f2 Hshort Hk).
Qed.

(** *** Handlers, observer, loading *)

(** X7: In every state the page can reach, the handlers installed for
    uncaught errors and for unhandled rejections hand nothing to
    [sendToWebhook], post nothing and start no flow: their call of
    [console.error] goes to the native function, since the interceptor is
    never installed. *)
Theorem uncaught_errors_not_reported msg err reason s :
  reachable h s ->
  let r := onerror_handler h msg err s in
  let q := onunhandledrejection_handler h reason s in
  (sent r.2 = sent s /\ posted r.2 = posted s /\ pending r.2 = pending s
   /\ lastErrorHash r.2 = "")
  /\ (sent q.2 = sent s /\ posted q.2 = posted s /\ pending q.2 = pending s
      /\ lastErrorHash q.2 = "").
Proof.
  intros Hr. destruct (reachable_pristine h s Hr) as (He & Ho & Hh).
  unfold onerror_handler, onunhandledrejection_handler, call_console_error. run.
  rewrite He.
  split.
  - destruct (String_ _ msg); run; repeat split; assumption.
  - destruct (String_ _ _); run; repeat split; assumption.
Qed.

Lemma shouldCheck_exists (mutations : list mutation) :
  shouldCheck mutations = existsb relevant_mutation mutations.
Proof.
  induction mutations as [|m rest IH]; [reflexivity|].
  cbn [shouldCheck existsb]. unfold relevant_mutation at 1. rewrite IH.
  destruct (existsb relevant_node (addedNodes m)); cbn [negb andb orb]; [reflexivity|].
  destruct (bool_decide (type m = Attributes) && is_portal_name (nodeName (target m)));
    reflexivity.
Qed.

(** X8: The callback of the mutation observer starts one scan of the
    document, after one log line, when at least one mutation of the batch
    adds a relevant node or changes an attribute of an overlay, however
    many do; the scan writes its own line and reads the document inside the
    callback, and the rest of it is left for later.  The callback does
    nothing for another batch.  It never throws. *)
Theorem observer_callback_starts_scan (mutations : list mutation) s :
  observer_callback mutations s
  = (Ok tt,
     if existsb relevant_mutation mutations
     then add_pending (CheckDomErrors (clock s))
            (add_console_out (Log "Checking for Next.js errors in DOM")
               (add_console_out
                  (Log "Relevant DOM mutation detected, checking for Next.js errors") s))
     else s).
Proof.
  unfold observer_callback. rewrite shouldCheck_exists.
  destruct (existsb relevant_mutation mutations); reflexivity.
Qed.

(** X9: Once the script was evaluated the window is marked, and evaluating
    the script again writes one log line and changes nothing else. *)
Theorem load_script_twice s :
  let s1 := (load_script s).2 in
  errorMonitorInitialized s1 = true
  /\ load_script s1
     = (Ok tt, add_console_out (Log "Error monitor already initialized") s1).
Proof.
  intros s1.
  assert (Hflag : errorMonitorInitialized s1 = true).
  { unfold s1. install. destruct (errorMonitorInitialized s) eqn:Hf; st; [exact Hf|reflexivity]. }
  split; [exact Hflag|]. unfold load_script at 1. run. rewrite Hflag. reflexivity.
Qed.


(** X11: A second [cleanup()] writes its log line and changes nothing
    else. *)
Theorem cleanup_twice s :
  cleanupErrorMonitor s = true ->
  let s1 := (api_cleanup s).2 in
  api_cleanup s1 = (Ok tt, add_console_out (Log "Cleaning up error monitor") s1).
Proof.
  intros Hreg s1. subst s1. install. rewrite Hreg. st.
  destruct (originalConsole s); st; rewrite Hreg; reflexivity.
Qed.


(** *** Time *)

Lemma check_lasts (shadow : ShadowRoot Element) t :
  let r := check h shadow default_delay default_retries t in
  t <= List.last r.2 t
  /\ (on_time h -> List.last r.2 t <= t + 2000)
  /\ (r.1 = None -> t + 2000 <= List.last r.2 t).
Proof.
  intros r. destruct (check_polls h shadow default_delay default_retries t)
    as (n & Hp & Hn & _ & _ & Hex). unfold r. rewrite Hp, last_poll_times.
  change (Z.to_nat default_retries) with 10%nat in Hn, Hex.
  pose proof (poll_time_lower h t default_delay n) as Hlow.
  change (Z.max 0 default_delay) with 200 in Hlow.
  split; [lia|]. split.
  - intros Hon. rewrite (poll_time_on_time h t default_delay n Hon).
    change (Z.max 0 default_delay) with 200. lia.
  - intros Hnone. pose proof (Hex Hnone) as Hn'. subst n. lia.
Qed.

Lemma locate_lasts (portals : list (portal Element)) : forall t,
  t <= (locate h portals t).2
  /\ (on_time h -> (locate h portals t).2 <= t + 2000 * Z.of_nat (length portals)).
Proof.
  induction portals as [|p rest IH]; intros t; cbn [locate length]; [cbn; lia|].
  destruct (shadowRoot p t) as [shadow|].
  - destruct (check_lasts shadow t) as (Hlow & Hup & _). cbn zeta in Hlow, Hup.
    destruct (check h shadow default_delay default_retries t).1; cbn [snd].
    + split; [lia|]. intros Hon. specialize (Hup Hon). lia.
    + destruct (IH (List.last (check h shadow default_delay default_retries t).2 t))
        as [Hlow' Hup'].
      split; [lia|]. intros Hon. specialize (Hup Hon). specialize (Hup' Hon). lia.
  - destruct (IH t) as [Hlow' Hup']. split; [lia|].
    intros Hon. specialize (Hup' Hon). lia.
Qed.

(** Overlays that all have a shadow root and none a header cost two
    seconds each. *)
Lemma locate_exhausted (portals : list (portal Element)) : forall t,
  (forall p u, In p portals -> shadowRoot p u <> None) ->
  (locate h portals t).1 = None ->
  t + 2000 * Z.of_nat (length portals) <= (locate h portals t).2.
Proof.
  induction portals as [|p rest IH]; intros t Hshadow Hnone;
    cbn [locate length] in *; [cbn; lia|].
  destruct (shadowRoot p t) as [shadow|] eqn:Hs.
  - destruct (check_lasts shadow t) as (_ & _ & Hex). cbn zeta in Hex.
    destruct (check h shadow default_delay default_retries t).1 as [el|];
      [discriminate Hnone|].
    specialize (Hex eq_refl).
    specialize (IH (List.last (check h shadow default_delay default_retries t).2 t)
                   (fun q u Hq => Hshadow q u (or_intror Hq)) Hnone).
    lia.
  - contradiction (Hshadow p t (or_introl eq_refl)).
Qed.

(** X12: A scan of the document does not end before it began.  It lasts
    about two seconds per overlay at most: when every timer fires on time
    it ends two seconds per overlay after it began, or sooner; and a scan
    that finds no header in a document whose overlays all have a shadow
    root lasts two seconds per overlay, or longer when timers fire late. *)
Theorem checkDomErrors_lasts s :
  consistent s ->
  let r := checkDomErrors h s in
  let overlays := Z.of_nat (length (document h (clock s))) in
  clock s <= clock r.2
  /\ (on_time h -> clock r.2 <= clock s + 2000 * overlays)
  /\ ((forall p u, In p (document h (clock s)) -> shadowRoot p u <> None) ->
      r.1 = Ok false ->
      clock s + 2000 * overlays <= clock r.2).
Proof.
  intros Hc r overlays.
  destruct (checkDomErrors_spec h s Hc) as (s' & Hs' & _ & Hcl & _).
  unfold r. rewrite Hs'. cbn [fst snd]. rewrite Hcl.
  destruct (locate_lasts (document h (clock s)) (clock s)) as [Hlow Hup].
  split; [exact Hlow|]. split; [exact Hup|].
  intros Hshadow Hfalse. apply locate_exhausted; [exact Hshadow|].
  destruct (locate h (document h (clock s)) (clock s)).1; [discriminate Hfalse|reflexivity].
Qed.

(** *** The flow and its two halves *)

Lemma set_clock_same s : set_clock (clock s) s = s.
Proof. destruct s; reflexivity. Qed.

Lemma checkDomErrors_from_clock s :
  consistent s ->
  clock s <= clock (checkDomErrors_from h (clock s) s).2.
Proof.
  intros Hc. destruct (checkDomErrors_from_spec h s Hc) as (s' & Hs' & _ & Hcl & _).
  rewrite Hs'. cbn [snd]. rewrite Hcl. apply (locate_lasts).
Qed.


(** The scan that is taken up at once after the call that started it is
    the whole scan. *)
Lemma checkDomErrors_split s :
  consistent s ->
  let called := (start_checkDomErrors s).2 in
  pending called = (pending s ++ [CheckDomErrors (clock s)])%list
  /\ (run_task h (CheckDomErrors (clock s)) (set_pending (pending s) called)).2
     = (checkDomErrors h s).2.
Proof.
  intros Hc called. split; [reflexivity|].
  destruct (run_task_eq h (CheckDomErrors (clock s)) (set_pending (pending s) called))
    as (s1 & -> & Hs1).
  set (s0 := add_console_out (Log "Checking for Next.js errors in DOM") s).
  assert (Hs0 : set_clock (clock s) (set_pending (pending s) called) = s0).
  { unfold called, s0. destruct s; reflexivity. }
  rewrite Hs0 in Hs1.
  assert (Hwhole : (checkDomErrors h s).2 = s1) by (subst s1; reflexivity).
  rewrite Hwhole.
  assert (Hc0 : consistent s0) by exact Hc.
  pose proof (checkDomErrors_from_clock s0 Hc0) as Hcl.
  change (clock s0) with (clock s) in Hcl. rewrite <- Hs1 in Hcl.
  change (clock (set_pending (pending s) called)) with (clock s).
  rewrite Z.max_r by exact Hcl. apply set_clock_same.
Qed.

(** X13: With no retry left ([retries] zero or negative) the wait queries
    the shadow root once, resolves with what that query found, and takes no
    time. *)
Theorem waitForHeaderElement_without_retry (shadow : ShadowRoot Element) retries delay s :
  retries <= 0 ->
  let r := waitForHeaderElement h shadow retries delay s in
  r.1 = Ok (shadow (clock s))
  /\ (check h shadow delay retries (clock s)).2 = [clock s]
  /\ clock r.2 = clock s.
Proof.
  intros Hr r. unfold r, waitForHeaderElement. cbn [fst snd]. rewrite check_eq.
  destruct (shadow (clock s)) as [el|]; [repeat split|].
  destruct (decide (retries <= 0)); [repeat split|lia].
Qed.

(** *** Reports *)

(** X14: DOM events are not deduplicated: while an overlay with a header
    stays in the document, each scan reports it again. *)
Theorem checkDomErrors_repeats (p : portal Element) rest shadow el s :
  consistent s ->
  (forall t, document h t = p :: rest) ->
  (forall t, shadowRoot p t = Some shadow) ->
  (forall t, shadow t = Some el) ->
  let r1 := checkDomErrors h s in
  let r2 := checkDomErrors h r1.2 in
  r1.1 = Ok true /\ r2.1 = Ok true
  /\ exists t1 t2,
       sent r2.2 = (sent s ++ [DomEvent (serializeToString h el) t1;
                               DomEvent (serializeToString h el) t2])%list.
Proof.
  intros Hc Hdoc Hsh Hel r1 r2.
  assert (Hloc : forall t, (locate h (document h t) t).1 = Some el).
  { intros t. rewrite Hdoc. cbn [locate]. rewrite Hsh, check_eq, Hel. reflexivity. }
  destruct (checkDomErrors_spec h s Hc) as (s1 & Hs1 & Hq1 & _ & Hsent1 & _).
  assert (Hc1 : consistent s1) by exact (quiet_consistent s s1 Hq1 Hc).
  destruct (checkDomErrors_spec h s1 Hc1) as (s2 & Hs2 & _ & _ & Hsent2 & _).
  unfold dom_report in Hsent1, Hsent2. cbn zeta in Hs1, Hs2.
  rewrite Hloc in Hs1, Hs2, Hsent1, Hsent2.
  unfold r2, r1. rewrite Hs1. cbn [fst snd]. rewrite Hs2. cbn [fst snd].
  split; [reflexivity|]. split; [reflexivity|].
  eexists _, _. rewrite Hsent2, Hsent1, <- app_assoc. reflexivity.
Qed.

Lemma reported_same s s' : sent s' = sent s -> posted s' = posted s -> reported h s s'.
Proof. intros Hs Hp. exists []. rewrite Hs, Hp, !app_nil_r. split; reflexivity. Qed.

Lemma handleConsoleError_from_reported method message args s :
  consistent s ->
  reported h s (handleConsoleError_from h method message args (clock s) s).2.
Proof.
  intros Hc.
  destruct (handleConsoleError_from_spec h method message args s Hc) as (s' & _ & Hcase).
  destruct (locate _ _ _).1, (serialize_args h args);
    destruct Hcase as (-> & Hsent & Hpost); cbn [snd].
  - eexists [_]. cbn [flat_map]. rewrite app_nil_r. split; eassumption.
  - eexists [_]. cbn [flat_map]. rewrite app_nil_r. split; eassumption.
  - eexists [_]. cbn [flat_map]. rewrite app_nil_r. split; eassumption.
  - apply reported_same; assumption.
Qed.

Lemma checkDomErrors_from_reported s :
  consistent s -> reported h s (checkDomErrors_from h (clock s) s).2.
Proof.
  intros Hc.
  destruct (checkDomErrors_from_spec h s Hc) as (s' & -> & _ & _ & Hsent & Hpost).
  eexists. split; eassumption.
Qed.

Lemma run_task_reported (t : task) s : consistent s -> reported h s (run_task h t s).2.
Proof.
  intros Hc. destruct (run_task_eq h t s) as (s1 & -> & Hs1).
  assert (Hrep : reported h s s1).
  { destruct t as [method message args started|started]; subst s1.
    - exact (handleConsoleError_from_reported method message args (set_clock started s) Hc).
    - exact (checkDomErrors_from_reported (set_clock started s) Hc). }
  destruct Hrep as (events & Hsent & Hpost). exists events. split; assumption.
Qed.

Lemma step_reported s s' : step h s s' -> pristine s -> reported h s s'.
Proof.
  intros Hstep Hp. pose proof (pristine_consistent s Hp) as Hc.
  destruct Hstep.
  - apply reported_same; install; destruct (errorMonitorInitialized s); reflexivity.
  - destruct (call_console_error_quiet h args s Hc) as (s' & -> & _ & _ & Hs & Hpo & _).
    apply reported_same; assumption.
  - rewrite sendErrorManually_called_eq. destruct (extract_message h error);
      apply reported_same; reflexivity.
  - apply reported_same; reflexivity.
  - apply reported_same; install; destruct (cleanupErrorMonitor s); st;
      try destruct (originalConsole s); reflexivity.
  - assert (Hc' : consistent (set_pending (before ++ after)%list s)) by exact Hc.
    exact (run_task_reported t _ Hc').
  - unfold observer_callback. destruct (shouldCheck mutations); apply reported_same; reflexivity.
  - unfold onerror_handler. run.
    destruct (String_ _ msg) as [str|e]; [|apply reported_same; reflexivity].
    match goal with |- context [call_console_error h ?a ?s0] =>
      destruct (call_console_error_quiet h a s0) as (s1 & -> & _ & _ & Hs & Hpo & _);
        [exact Hc|apply reported_same; assumption]
    end.
  - unfold onunhandledrejection_handler. run.
    destruct (String_ _ _) as [str|e]; [|apply reported_same; reflexivity].
    match goal with |- context [call_console_error h ?a ?s0] =>
      destruct (call_console_error_quiet h a s0) as (s1 & -> & _ & _ & Hs & Hpo & _);
        [exact Hc|apply reported_same; assumption]
    end.
  - apply reported_same; reflexivity.
Qed.

Lemma delivered_source data :
  Forall (fun m => source m = "superengineer" /\ Monitor.data m = data) (delivered h data).
Proof.
  unfold delivered. destruct (in_frame h); [|constructor].
  destruct (postMessage_throws h _); constructor; [split; reflexivity|constructor].
Qed.

(** X15: In every state the page can reach, the messages posted to the
    parent are those delivered for the events handed to [sendToWebhook], in
    order; each has the source "superengineer" and carries such an event;
    and outside a frame nothing is ever posted. *)
Theorem posted_are_delivered s :
  reachable h s ->
  posted s = flat_map (delivered h) (sent s)
  /\ (in_frame h = false -> posted s = [])
  /\ Forall (fun m => source m = "superengineer" /\ In (data m) (sent s)) (posted s).
Proof.
  intros [now Hsteps].
  assert (Hinv : forall a b, rtc (step h) a b -> pristine a ->
                   posted a = flat_map (delivered h) (sent a) ->
                   posted b = flat_map (delivered h) (sent b)).
  { intros a b Hab. induction Hab as [|s1 s2 s3 Hstep _ IH]; [trivial|].
    intros Hp Heq. apply IH; [exact (step_pristine h _ _ Hstep Hp)|].
    destruct (step_reported _ _ Hstep Hp) as (events & Hs & Hpo).
    rewrite Hpo, Hs, Heq, flat_map_app. reflexivity. }
  assert (Heq : posted s = flat_map (delivered h) (sent s)).
  { apply (Hinv _ _ Hsteps); [repeat split|reflexivity]. }
  split; [exact Heq|]. split.
  - intros Hf. rewrite Heq. clear Heq. unfold delivered. rewrite Hf.
    induction (sent s) as [|e l IHl]; [reflexivity|exact IHl].
  - rewrite Heq. apply List.Forall_forall. intros m Hm.
    apply in_flat_map in Hm as (e & He & Hm).
    pose proof (delivered_source e) as Hd. rewrite List.Forall_forall in Hd.
    destruct (Hd m Hm) as [Hsrc Hdata]. split; [exact Hsrc|]. rewrite Hdata. exact He.
Qed.

End Flows.

(** *** Concrete runs *)

Lemma interceptor_calls_original_witness :
  let h := markup_host true no_overlay in
  originalConsole intercepting = Some NativeError
  /\ exists s',
       interceptor h [VStr "oops"] intercepting = (Ok tt, s')
       /\ console_out s'
          = (console_out intercepting
             ++ [Log "Handling error message:"; Log "Checking for Next.js errors in DOM"]
             ++ [Error [VStr "oops"]])%list.
Proof.
  intros h. split; [reflexivity|].
  destruct (interceptor_calls_original h [VStr "oops"] intercepting eq_refl)
    as (s' & out & Hrun & Hout & _ & _ & Hok & _).
  specialize (Hok "oops" ltac:(evaluate)). vm_compute in Hok. subst out.
  exists s'. split; [exact Hrun|exact Hout].
Defined.

Lemma interceptor_dedups_on_prefix_witness :
  let h := markup_host true no_overlay in
  let s1 := (interceptor h [VStr (long_message "A")] intercepting).2 in
  let s2 := (interceptor h [VStr (long_message "B")] s1).2 in
  long_message "A" <> long_message "B"
  /\ substring 0 100 (long_message "A") = substring 0 100 (long_message "B")
  /\ pending s2 = pending s1.
Proof.
  intros h s1 s2. split; [vm_compute; discriminate|]. split; [evaluate|].
  pose proof (interceptor_dedups_on_prefix h [VStr (long_message "A")]
                [VStr (long_message "B")] (long_message "A") (long_message "B")
                intercepting ltac:(evaluate) ltac:(evaluate) ltac:(evaluate)
                ltac:(evaluate)) as Hdedup.
  cbn zeta in Hdedup. destruct Hdedup as (_ & Hpending & _). exact Hpending.
Defined.

Lemma interceptor_reports_distinct_witness :
  let h := markup_host true no_overlay in
  let s1 := (interceptor h [VStr "first"] intercepting).2 in
  let s2 := (interceptor h [VStr "second"] s1).2 in
  (String.length "first" < 100)%nat
  /\ pending s2
      = (pending s1
         ++ [HandleConsoleError "error" (VStr "second") [VStr "second"] (clock s1)])%list.
Proof.
  intros h s1 s2. split; [vm_compute; lia|].
  pose proof (interceptor_reports_distinct h [VStr "first"] [VStr "second"] "first" "second"
                intercepting ltac:(evaluate) ltac:(evaluate) ltac:(evaluate)
                ltac:(vm_compute; lia) ltac:(discriminate)) as Hdistinct.
  cbn zeta in Hdistinct. destruct Hdistinct as [Hpending _]. exact Hpending.
Defined.

Lemma uncaught_errors_not_reported_witness :
  let h := markup_host true no_overlay in
  sent (onerror_handler h (VStr "ReferenceError: x is not defined") VUndefined (loaded h)).2
  = sent (loaded h).
Proof.
  intros h.
  pose proof (uncaught_errors_not_reported h (VStr "ReferenceError: x is not defined")
                VUndefined VUndefined (loaded h) (loaded_reachable h)) as Hquiet.
  cbn zeta in Hquiet. destruct Hquiet as [[Hsent _] _]. exact Hsent.
Defined.

Lemma cleanup_twice_witness :
  let h := markup_host true no_overlay in
  let s1 := (api_cleanup (loaded h)).2 in
  cleanupErrorMonitor (loaded h) = true
  /\ api_cleanup s1 = (Ok tt, add_console_out (Log "Cleaning up error monitor") s1).
Proof.
  intros h s1. split; [evaluate|].
  exact (cleanup_twice (loaded h) ltac:(evaluate)).
Defined.


Lemma checkDomErrors_lasts_witness :
  let h := with_late_timers 50
             (markup_host true (fun _ => [Portal (fun _ => Some (fun _ => None))])) in
  let r := checkDomErrors h (initial 0) in
  consistent (initial 0)
  /\ r.1 = Ok false
  /\ clock (initial 0) + 2000 * Z.of_nat (length (document h (clock (initial 0))))
     <= clock r.2.
Proof.
  intros h r. split; [reflexivity|]. split; [evaluate|].
  pose proof (checkDomErrors_lasts h (initial 0) eq_refl) as Hlasts.
  cbn zeta in Hlasts. destruct Hlasts as (_ & _ & Hexhausted).
  apply Hexhausted.
  - intros p u [<-|[]]. discriminate.
  - evaluate.
Defined.


Lemma waitForHeaderElement_without_retry_witness :
  let h := markup_host true no_overlay in
  0 <= 0
  /\ (waitForHeaderElement h late_shadow 0 default_delay (initial 0)).1
     = Ok (late_shadow (clock (initial 0))).
Proof.
  intros h. split; [lia|].
  pose proof (waitForHeaderElement_without_retry h late_shadow 0 default_delay (initial 0)
                ltac:(lia)) as Honce.
  cbn zeta in Honce. destruct Honce as [Hresult _]. exact Hresult.
Defined.

Lemma checkDomErrors_repeats_witness :
  let h := markup_host true one_overlay in
  let r1 := checkDomErrors h (initial 0) in
  let r2 := checkDomErrors h r1.2 in
  consistent (initial 0) /\ r1.1 = Ok true /\ r2.1 = Ok true.
Proof.
  intros h r1 r2. split; [reflexivity|].
  pose proof (checkDomErrors_repeats h
                (Portal (fun _ => Some (fun _ => Some "<div>Unhandled Runtime Error</div>")))
                [] (fun _ => Some "<div>Unhandled Runtime Error</div>")
                "<div>Unhandled Runtime Error</div>" (initial 0)
                eq_refl (fun _ => eq_refl) (fun _ => eq_refl) (fun _ => eq_refl))
    as Hrepeats.
  cbn zeta in Hrepeats. destruct Hrepeats as (H1 & H2 & _).
  split; [exact H1|exact H2].
Defined.

Lemma posted_are_delivered_witness :
  let h := markup_host true one_overlay in
  posted (loaded h) = flat_map (delivered h) (sent (loaded h)).
Proof.
  intros h.
  pose proof (posted_are_delivered h (loaded h) (loaded_reachable h)) as Hposted.
  destruct Hposted as [Heq _]. exact Heq.
Defined.

End ReportingFacts.

(** ** The injector, further *)

Module InjectorRuns.
Import Injector InjectorFacts.
Local Open Scope list_scope.


Section Script.
Variable __dirname : path.
Variable errorMonitorScript : string.
Local Abbreviation d := __dirname.
Local Abbreviation app := (appPath __dirname).
Local Abbreviation emp := (errorMonitorPath __dirname).
Local Abbreviation aemp := (appErrorMonitorPath __dirname).
Local Abbreviation pub := (publicDir __dirname).
Local Abbreviation layout := (layoutPath __dirname).

Lemma writeFileSync_inv p content pr r pr' :
  writeFileSync p content pr = (r, pr') ->
  (r = Returned tt /\ pr' = Process (<[p := File content]> (files pr)) (output pr)
   /\ is_dir (files pr) (dirname p) = true)
  \/ (exists e, r = Thrown e /\ pr' = pr).
Proof.
  unfold writeFileSync. destruct (is_dir (files pr) (dirname p)); cbn [negb].
  - destruct (is_dir (files pr) p); intros [= <- <-]; [right|left]; eauto.
  - intros [= <- <-]. right. eauto.
Qed.

Lemma mkdir_parents_keeps (reversed : path) : forall fs fs' q n,
  mkdir_parents reversed fs = Some fs' ->
  lookup_node fs q = Some n -> lookup_node fs' q = Some n.
Proof.
  induction reversed as [|x parent IH]; intros fs fs' q n Hm Hq.
  - cbn in Hm. injection Hm as <-. exact Hq.
  - cbn [mkdir_parents] in Hm.
    destruct (lookup_node fs (rev (x :: parent))) as [[c|]|] eqn:Hl; try discriminate.
    + injection Hm as <-. exact Hq.
    + destruct (mkdir_parents parent fs) as [fs1|] eqn:Hp; [|discriminate].
      injection Hm as <-. pose proof (IH _ _ _ _ Hp Hq) as Hq1.
      destruct (decide (rev (x :: parent) = q)) as [<-|Hne].
      * assert (Hnone : lookup_node fs (rev (x :: parent)) = None) by exact Hl.
        rewrite Hq in Hnone. discriminate.
      * destruct q as [|y q]; [exact Hq1|]. unfold lookup_node in *.
        rewrite lookup_insert_ne by exact Hne. exact Hq1.
Qed.

Lemma mkdir_parents_makes (reversed : path) : forall fs fs',
  mkdir_parents reversed fs = Some fs' -> is_dir fs' (rev reversed) = true.
Proof.
  destruct reversed as [|x parent]; intros fs fs' Hm; [reflexivity|].
  cbn [mkdir_parents] in Hm.
  destruct (lookup_node fs (rev (x :: parent))) as [[c|]|] eqn:Hl; try discriminate.
  - injection Hm as <-. unfold is_dir. rewrite Hl. reflexivity.
  - destruct (mkdir_parents parent fs) as [fs1|]; [|discriminate].
    injection Hm as <-. unfold is_dir. rewrite lookup_node_insert; [reflexivity|].
    cbn [rev]. intros Hnil. apply app_eq_nil in Hnil as [_ Hnil]. discriminate.
Qed.


Lemma inject_returned pr pr' :
  inject d errorMonitorScript pr = (Returned tt, pr') ->
  exists fs2,
    (forall q n, lookup_node (<[emp := File errorMonitorScript]> (files pr)) q = Some n ->
                 lookup_node fs2 q = Some n)
    /\ is_dir (files pr) d = true
    /\ is_dir fs2 pub = true
    /\ let fs3 := <[aemp := File errorMonitorScript]> fs2 in
       files pr' = match lookup_node fs3 layout with
                   | Some (File c) =>
                       if includes "error-monitor.js" c then fs3
                       else <[layout := File (patch_layout c)]> fs3
                   | _ => fs3
                   end.
Proof.
  intros H. unfold inject in H. irun.
  destruct (writeFileSync emp errorMonitorScript pr) as [r1 pr1] eqn:Hw1.
  apply writeFileSync_inv in Hw1 as [(-> & -> & Hd)|(e & -> & ->)];
    cbn [fst snd files output] in H; [|discriminate H].
  unfold errorMonitorPath in Hd. rewrite dirname_snoc in Hd.
  set (fs1 := <[emp := File errorMonitorScript]> (files pr)) in *.
  destruct (bool_decide (is_Some (lookup_node fs1 app))); cbn [negb] in H; [|discriminate H].
  cbn [files] in H.
  match type of H with context [(if ?b then mkdirSync_recursive pub else ?k) ?p0] =>
    destruct ((if b then mkdirSync_recursive pub else k) p0) as [r2 pr2] eqn:H2
  end.
  assert (Hext : r2 = Returned tt ->
            (forall q n, lookup_node fs1 q = Some n -> lookup_node (files pr2) q = Some n)).
  { intros ->. destruct (negb _) in H2.
    - unfold mkdirSync_recursive in H2. cbn [files output] in H2.
      destruct (mkdir_parents (rev pub) fs1) as [fs2|] eqn:Hm; [|discriminate H2].
      injection H2 as <-. cbn [files]. intros q n. apply (mkdir_parents_keeps _ _ _ _ _ Hm).
    - injection H2 as <-. cbn [files]. auto. }
  destruct r2 as [[]|e|c]; [|discriminate H|discriminate H].
  specialize (Hext eq_refl). clear H2.
  unfold copyFileSync in H.
  assert (Hsrc : lookup_node (files pr2) emp = Some (File errorMonitorScript)).
  { apply Hext. unfold fs1. apply lookup_node_insert.
    unfold errorMonitorPath. intros Hnil. apply app_eq_nil in Hnil as [_ Hnil]. discriminate. }
  rewrite Hsrc in H.
  destruct (writeFileSync aemp errorMonitorScript pr2) as [r3 pr3] eqn:Hw3.
  apply writeFileSync_inv in Hw3 as [(-> & -> & Hpub)|(e & -> & ->)]; [|discriminate H].
  cbn [files output] in H.
  exists (files pr2). split; [exact Hext|]. split; [exact Hd|]. split; [exact Hpub|].
  cbn zeta. set (fs3 := <[aemp := File errorMonitorScript]> (files pr2)) in *.
  unfold readFileSync in H.
  destruct (lookup_node fs3 layout) as [[c|]|] eqn:Hl.
  - rewrite bool_decide_true in H by eauto. cbn [files output] in H. rewrite Hl in H.
    destruct (includes "error-monitor.js" c).
    + injection H as <-. reflexivity.
    + destruct (writeFileSync layout (patch_layout c) _) as [r4 pr4] eqn:Hw4.
      apply writeFileSync_inv in Hw4 as [(-> & -> & _)|(e & -> & ->)]; [|discriminate H].
      injection H as <-. reflexivity.
  - rewrite bool_decide_true in H by eauto. cbn [files output] in H. rewrite Hl in H.
    discriminate H.
  - rewrite bool_decide_false in H by (intros [x Hx]; discriminate). injection H as <-.
    reflexivity.
Qed.

Local Abbreviation exits_with_1 m :=
  (forall (p : process) (c : Z) (p' : process), m p = (Exited c, p') -> c = 1).

Lemma exits_bind {A B} (m : M A) (k : A -> M B) :
  exits_with_1 m -> (forall a, exits_with_1 (k a)) -> exits_with_1 (Injector.bind m k).
Proof.
  intros Hm Hk p c p'. unfold Injector.bind.
  destruct (m p) as [[a|e|c0] p0] eqn:Hmp.
  - apply Hk.
  - discriminate.
  - intros [= <- <-]. exact (Hm _ _ _ Hmp).
Qed.

Lemma exits_if {A} (b : bool) (m1 m2 : M A) :
  exits_with_1 m1 -> exits_with_1 m2 -> exits_with_1 (if b then m1 else m2).
Proof. destruct b; auto. Qed.

Lemma exits_writeFileSync p content : exits_with_1 (writeFileSync p content).
Proof.
  intros pr c pr'. unfold writeFileSync.
  destruct (negb _); [discriminate|]. destruct (is_dir _ _); discriminate.
Qed.

Lemma exits_readFileSync p : exits_with_1 (readFileSync p).
Proof.
  intros pr c pr'. unfold readFileSync.
  destruct (lookup_node _ _) as [[x|]|]; discriminate.
Qed.

Lemma exits_copyFileSync src dst : exits_with_1 (copyFileSync src dst).
Proof.
  intros pr c pr'. unfold copyFileSync.
  destruct (lookup_node _ _) as [[x|]|]; try discriminate. apply exits_writeFileSync.
Qed.

Lemma exits_mkdirSync p : exits_with_1 (mkdirSync_recursive p).
Proof.
  intros pr c pr'. unfold mkdirSync_recursive.
  destruct (mkdir_parents _ _); discriminate.
Qed.

Lemma inject_outcome pr :
  (inject d errorMonitorScript pr).1 = Returned tt
  \/ (inject d errorMonitorScript pr).1 = Exited 1.
Proof.
  unfold inject, Injector.try_catch.
  match goal with |- context [let (_, _) := ?body pr in _] =>
    assert (Hbody : exits_with_1 body)
  end.
  { repeat first
      [ apply exits_bind; [|intros ?]
      | apply exits_if
      | apply exits_writeFileSync | apply exits_readFileSync
      | apply exits_copyFileSync | apply exits_mkdirSync
      | (intros ? ? ?; unfold Injector.console_log, Injector.console_error, existsSync,
           Injector.ret, process_exit; intros [= <- <-]; reflexivity)
      | (intros ? ? ?; unfold Injector.console_log, Injector.console_error, existsSync,
           Injector.ret; discriminate) ]. }
  match goal with |- context [let (_, _) := ?body pr in _] =>
    destruct (body pr) as [[[]|e|c] p0] eqn:Hb
  end.
  - left. reflexivity.
  - right. reflexivity.
  - right. cbn [fst]. rewrite (Hbody _ _ _ Hb). reflexivity.
Qed.


Lemma paths_differ :
  emp <> [] /\ aemp <> [] /\ layout <> [] /\ pub <> []
  /\ emp <> aemp /\ emp <> layout /\ aemp <> layout /\ aemp <> pub /\ layout <> pub.
Proof.
  pose proof (length_appPath d) as Hlen. pose proof (publicDir_eq d) as Hpub.
  assert (Hl : forall p q : path, length p <> length q -> p <> q) by (intros p q Hn ->; auto).
  unfold errorMonitorPath, appErrorMonitorPath, layoutPath in *. rewrite Hpub.
  repeat split; try (apply Hl; rewrite ?length_app; cbn [length]; lia).
  intros Heq. apply app_inv_head in Heq. discriminate.
Qed.

Lemma exit_code_0 pr :
  exit_code d errorMonitorScript pr = 0 ->
  inject d errorMonitorScript pr = (Returned tt, (inject d errorMonitorScript pr).2).
Proof.
  unfold exit_code. intros H.
  destruct (inject_outcome pr) as [Hr|Hr]; rewrite Hr in H; [|discriminate].
  destruct (inject d errorMonitorScript pr) as [r p]. cbn [fst snd] in *. subst r. reflexivity.
Qed.


(** X17: When the injector ends with exit code 0, the monitor script is in
    [error-monitor.js] next to the injector and in the application's
    [public] directory, which is a directory, as the injector's own
    directory was. *)
Theorem inject_success pr :
  exit_code d errorMonitorScript pr = 0 ->
  let fs' := files (inject d errorMonitorScript pr).2 in
  lookup_node fs' emp = Some (File errorMonitorScript)
  /\ lookup_node fs' aemp = Some (File errorMonitorScript)
  /\ is_dir fs' pub = true
  /\ is_dir (files pr) d = true.
Proof.
  intros H0. apply exit_code_0 in H0. apply inject_returned in H0
    as (fs2 & Hext & Hd & Hpub & Hfinal).
  destruct paths_differ as (E1 & E2 & E3 & E4 & N1 & N2 & N3 & N4 & N5).
  cbn zeta in *. rewrite Hfinal. clear Hfinal.
  set (fs3 := <[aemp := File errorMonitorScript]> fs2).
  assert (H1 : lookup_node fs3 emp = Some (File errorMonitorScript)).
  { unfold fs3. rewrite lookup_node_insert_ne by auto. apply Hext.
    apply lookup_node_insert. exact E1. }
  assert (H2 : lookup_node fs3 aemp = Some (File errorMonitorScript)).
  { apply lookup_node_insert. exact E2. }
  assert (H3 : is_dir fs3 pub = true).
  { unfold fs3. rewrite is_dir_insert_ne by auto. exact Hpub. }
  destruct (lookup_node fs3 layout) as [[c|]|]; auto.
  destruct (includes "error-monitor.js" c); auto.
  rewrite !lookup_node_insert_ne, is_dir_insert_ne by auto. auto.
Qed.

(** X18: When the injector ends with exit code 0 and the layout file held
    [c], the layout file is left with [c] when [c] mentions
    [error-monitor.js], and holds the patched [c] otherwise. *)
Theorem inject_layout pr (c : string) :
  exit_code d errorMonitorScript pr = 0 ->
  lookup_node (files pr) layout = Some (File c) ->
  lookup_node (files (inject d errorMonitorScript pr).2) layout
  = Some (File (if includes "error-monitor.js" c then c else patch_layout c)).
Proof.
  intros H0 Hl. apply exit_code_0 in H0. apply inject_returned in H0
    as (fs2 & Hext & Hd & Hpub & Hfinal).
  destruct paths_differ as (E1 & E2 & E3 & E4 & N1 & N2 & N3 & N4 & N5).
  cbn zeta in *. rewrite Hfinal. clear Hfinal.
  set (fs3 := <[aemp := File errorMonitorScript]> fs2).
  assert (H1 : lookup_node fs3 layout = Some (File c)).
  { unfold fs3. rewrite lookup_node_insert_ne by auto. apply Hext.
    rewrite lookup_node_insert_ne by auto. exact Hl. }
  rewrite H1. destruct (includes "error-monitor.js" c); [exact H1|].
  apply lookup_node_insert. exact E3.
Qed.

End Script.

(** ** The text patches *)

Lemma starts_with_nil s : starts_with "" s = true.
Proof. destruct s; reflexivity. Qed.

Lemma includes_cons p c s :
  includes p (String c s) = starts_with p (String c s) || includes p s.
Proof. reflexivity. Qed.

Lemma starts_with_append p : forall s t,
  starts_with p s = true -> starts_with p (s +:+ t) = true.
Proof.
  induction p as [|a p IH]; intros s t H; [apply starts_with_nil|].
  destruct s as [|b s]; [discriminate|]. cbn [starts_with] in *.
  apply andb_true_iff in H as [Hab Hp]. change (String b s +:+ t) with (String b (s +:+ t)).
  cbn [starts_with]. rewrite Hab, (IH _ _ Hp). reflexivity.
Qed.

Lemma includes_append_l p s t : includes p s = true -> includes p (s +:+ t) = true.
Proof.
  induction s as [|c s IH]; intros H.
  - cbn [includes] in H. rewrite orb_false_r in H. destruct p; [|discriminate].
    change ("" +:+ t) with t. destruct t; reflexivity.
  - rewrite includes_cons in H. change (String c s +:+ t) with (String c (s +:+ t)).
    rewrite includes_cons. apply orb_true_iff in H as [H|H].
    + change (String c (s +:+ t)) with (String c s +:+ t).
      rewrite (starts_with_append _ _ _ H). reflexivity.
    + rewrite (IH H). apply orb_true_r.
Qed.

Lemma includes_append_r p s t : includes p t = true -> includes p (s +:+ t) = true.
Proof.
  intros H. induction s as [|c s IH]; [exact H|].
  change (String c s +:+ t) with (String c (s +:+ t)). rewrite includes_cons, IH.
  apply orb_true_r.
Qed.

Lemma insert_after_includes p marker added : forall s,
  includes p added = true -> includes marker s = true ->
  includes p (insert_after marker added s) = true.
Proof.
  intros s Hadded. 
  assert (Hfound : forall s, starts_with marker s = true ->
            includes p (insert_after marker added s) = true).
  { intros s0 Hs. destruct s0 as [|c s0]; cbn [insert_after]; rewrite Hs;
      apply includes_append_r, includes_append_l, Hadded. }
  induction s as [|c s IH]; intros H.
  - cbn [includes] in H. rewrite orb_false_r in H. apply Hfound, H.
  - rewrite includes_cons in H.
    destruct (starts_with marker (String c s)) eqn:Hs; [apply Hfound, Hs|].
    cbn [orb] in H. cbn [insert_after]. rewrite Hs. rewrite includes_cons, (IH H).
    apply orb_true_r.
Qed.

Lemma insert_after_absent marker added : forall s,
  includes marker s = false -> insert_after marker added s = s.
Proof.
  induction s as [|c s IH]; intros H.
  - cbn [includes] in H. rewrite orb_false_r in H. cbn [insert_after]. rewrite H. reflexivity.
  - rewrite includes_cons in H. apply orb_false_iff in H as [Hs Hi].
    cbn [insert_after]. rewrite Hs, (IH Hi). reflexivity.
Qed.

Lemma span_white_cons c s :
  span_white (String c s)
  = if JS.is_white_space c then (String c (span_white s).1, (span_white s).2)
    else ("", String c s).
Proof. reflexivity. Qed.

Lemma insert_before_head_cons tag c s :
  insert_before_head tag (String c s)
  = if JS.is_white_space c && starts_with "</head>" (span_white (String c s)).2
    then (span_white (String c s)).1 +:+ tag +:+ String (ascii_of_N 10) ""
         +:+ (span_white (String c s)).1 +:+ (span_white (String c s)).2
    else String c (insert_before_head tag s).
Proof. reflexivity. Qed.

Lemma starts_with_white a p c s :
  JS.is_white_space a = false -> JS.is_white_space c = true ->
  starts_with (String a p) (String c s) = false.
Proof.
  intros Ha Hc. cbn [starts_with]. destruct (Ascii.eqb_spec a c) as [->|]; [|reflexivity].
  congruence.
Qed.

Lemma span_white_includes a p : forall s,
  JS.is_white_space a = false ->
  includes (String a p) (span_white s).2 = includes (String a p) s.
Proof.
  intros s Ha. induction s as [|c s IH]; [reflexivity|].
  rewrite span_white_cons. destruct (JS.is_white_space c) eqn:Hc; [|reflexivity].
  cbn [snd]. rewrite includes_cons, (starts_with_white _ _ _ _ Ha Hc). exact IH.
Qed.

Lemma insert_before_head_starts tag : forall s q,
  white_free q = true -> starts_with q s = true ->
  starts_with q (insert_before_head tag s) = true.
Proof.
  induction s as [|c s IH]; intros q Hq H; [exact H|].
  destruct q as [|a q]; [reflexivity|].
  cbn [white_free] in Hq. apply andb_true_iff in Hq as [Ha Hq].
  apply negb_true_iff in Ha.
  cbn [starts_with] in H. apply andb_true_iff in H as [Hac H].
  apply Ascii.eqb_eq in Hac. subst c.
  rewrite insert_before_head_cons, Ha. cbn [andb starts_with].
  rewrite Ascii.eqb_refl, (IH _ Hq H). reflexivity.
Qed.

Lemma insert_before_head_includes tag a p : forall s,
  white_free (String a p) = true ->
  includes (String a p) s = true ->
  includes (String a p) (insert_before_head tag s) = true.
Proof.
  intros s Hq. assert (Ha : JS.is_white_space a = false).
  { cbn [white_free] in Hq. apply andb_true_iff in Hq as [Ha _].
    apply negb_true_iff in Ha. exact Ha. }
  induction s as [|c s IH]; intros H; [exact H|].
  rewrite insert_before_head_cons.
  destruct (JS.is_white_space c && starts_with "</head>" (span_white (String c s)).2) eqn:Hcond.
  - rewrite <- (span_white_includes a p (String c s) Ha) in H.
    do 4 apply includes_append_r. exact H.
  - rewrite includes_cons in H. rewrite includes_cons.
    apply orb_true_iff in H as [H|H].
    + cbn [white_free] in Hq. apply andb_true_iff in Hq as [_ Hp].
      cbn [starts_with] in *. apply andb_true_iff in H as [-> H].
      rewrite (insert_before_head_starts tag _ _ Hp H). reflexivity.
    + rewrite (IH H). apply orb_true_r.
Qed.

Lemma includes_tail p c s : includes p (String c s) = false -> includes p s = false.
Proof. rewrite includes_cons. intros H. apply orb_false_iff in H as [_ H]. exact H. Qed.

Lemma includes_starts p s : includes p s = false -> starts_with p s = false.
Proof.
  destruct s as [|c s]; cbn [includes]; intros H; apply orb_false_iff in H as [H _]; exact H.
Qed.

Lemma span_white_absent p : forall s,
  includes p s = false -> includes p (span_white s).2 = false.
Proof.
  induction s as [|c s IH]; intros H; [exact H|].
  rewrite span_white_cons. destruct (JS.is_white_space c); [|exact H].
  cbn [snd]. apply IH, (includes_tail _ _ _ H).
Qed.

Lemma insert_before_head_absent tag : forall s,
  includes "</head>" s = false -> insert_before_head tag s = s.
Proof.
  induction s as [|c s IH]; intros H; [reflexivity|].
  rewrite insert_before_head_cons.
  rewrite (includes_starts _ _ (span_white_absent _ _ H)), andb_false_r.
  rewrite (IH (includes_tail _ _ _ H)). reflexivity.
Qed.

(** X19: A layout with the [isProd] line, once patched, mentions
    [error-monitor.js]: a later run of the injector leaves it alone. *)
Theorem patch_layout_recognised (layoutContent : string) :
  includes "const isProd = process.env.NODE_ENV === 'production';" layoutContent = true ->
  includes "error-monitor.js" (patch_layout layoutContent) = true.
Proof.
  intros H. unfold patch_layout.
  apply insert_before_head_includes; [vm_compute; reflexivity|].
  apply insert_after_includes; [vm_compute; reflexivity|exact H].
Qed.

(** X20: A layout with neither the [isProd] line nor a closing head tag is
    not changed by the patch. *)
Theorem patch_layout_without_anchors (layoutContent : string) :
  includes "const isProd = process.env.NODE_ENV === 'production';" layoutContent = false ->
  includes "</head>" layoutContent = false ->
  patch_layout layoutContent = layoutContent.
Proof.
  intros Hm Hh. unfold patch_layout.
  rewrite (insert_after_absent _ _ _ Hm). apply insert_before_head_absent, Hh.
Qed.

(** *** Concrete runs *)

Lemma inject_success_witness :
  let pr := Process app_without_layout [] in
  exit_code tool_dir "monitor" pr = 0
  /\ lookup_node (files (inject tool_dir "monitor" pr).2) (appErrorMonitorPath tool_dir)
     = Some (File "monitor").
Proof.
  intros pr. split; [evaluate|].
  pose proof (inject_success tool_dir "monitor" pr ltac:(evaluate)) as Hdone.
  cbn zeta in Hdone. destruct Hdone as (_ & Hcopy & _). exact Hcopy.
Defined.

Lemma inject_layout_witness :
  let pr := Process (app_with_layout layout_example) [] in
  exit_code tool_dir "monitor" pr = 0
  /\ lookup_node (files pr) (layoutPath tool_dir) = Some (File layout_example)
  /\ lookup_node (files (inject tool_dir "monitor" pr).2) (layoutPath tool_dir)
     = Some (File (if includes "error-monitor.js" layout_example
                   then layout_example else patch_layout layout_example)).
Proof.
  intros pr. split; [evaluate|]. split; [evaluate|].
  exact (inject_layout tool_dir "monitor" pr layout_example ltac:(evaluate) ltac:(evaluate)).
Defined.

Lemma patch_layout_recognised_witness :
  includes "error-monitor.js" layout_example = false
  /\ includes "error-monitor.js" (patch_layout layout_example) = true.
Proof.
  split; [evaluate|].
  exact (patch_layout_recognised layout_example ltac:(evaluate)).
Defined.

Lemma patch_layout_without_anchors_witness :
  patch_layout "export default function RootLayout() {}"
  = "export default function RootLayout() {}".
Proof.
  exact (patch_layout_without_anchors "export default function RootLayout() {}"
           ltac:(evaluate) ltac:(evaluate)).
Defined.

End InjectorRuns.
